(** * A multi-agent ReAct router: the Python program as Rocq definitions

    The program under study is one Python module, [example.py].  It
    defines eight leaf tools, four specialist agents that each hand two
    tools to a reason/act/observe loop, four adapter functions that turn a
    specialist into a plain callable, a coordinator whose tools are those
    adapters, and a tracing decorator.

    Python objects are embedded as follows.
    - A [str] is a [string]; one element stands for one character.  The
      literals of the module that leave ASCII (console pictograms, the
      degree sign) are spelled by their UTF-8 bytes.
    - A number is an unbounded [int] or a binary64 [float]; the float
      operations are the ones of [SpecFloat] at precision 53.
    - JSON documents and tool arguments are a small inductive type
      [value]; a dict that is only looked up by key is a [gmap].
    - Exceptions are values; a computation returns [Ok] or [Raise].
    - Console output, the wall clock, the HTTP service and the language
      model are reached through a world that is threaded explicitly. *)

From Stdlib Require Import ZArith String Ascii List Lia.
From Stdlib Require Import Floats.SpecFloat.
From stdpp Require Import base option list gmap strings pretty.

Set Warnings "-register-all,-clear-no-such-hyp".
Local Open Scope string_scope.
Local Open Scope Z_scope.

(** ** Python numbers *)

Module PyNum.

Definition prec : Z := 53.
Definition emax : Z := 1024.

Inductive num :=
| PyInt (z : Z)
| PyFloat (f : spec_float).

(** [float(z)]: the nearest binary64, ties to even.  Python raises
    [OverflowError] where the rounding leaves the finite range. *)
Definition float_of_int (z : Z) : option spec_float :=
  match binary_normalize prec emax z 0 false with
  | S754_infinity _ => None
  | f => Some f
  end.

(** The pattern shared by [+], [-] and [*]: exact on two ints, IEEE on
    two floats, and an int meeting a float is converted first. *)
Definition arith (on_int : Z -> Z -> Z)
    (on_float : spec_float -> spec_float -> spec_float)
    (a b : num) : option num :=
  match a, b with
  | PyInt x, PyInt y => Some (PyInt (on_int x y))
  | PyFloat x, PyFloat y => Some (PyFloat (on_float x y))
  | PyInt x, PyFloat y =>
      match float_of_int x with
      | Some fx => Some (PyFloat (on_float fx y))
      | None => None
      end
  | PyFloat x, PyInt y =>
      match float_of_int y with
      | Some fy => Some (PyFloat (on_float x fy))
      | None => None
      end
  end.

Definition add : num -> num -> option num := arith Z.add (SFadd prec emax).
Definition sub : num -> num -> option num := arith Z.sub (SFsub prec emax).
Definition mul : num -> num -> option num := arith Z.mul (SFmul prec emax).

Definition abs (a : num) : num :=
  match a with
  | PyInt x => PyInt (Z.abs x)
  | PyFloat x => PyFloat (SFabs x)
  end.

(** Python compares an int with a float by value, without rounding the
    int.  [None] is the unordered case (a NaN). *)
Definition cmp_int_float (z : Z) (f : spec_float) : option comparison :=
  match f with
  | S754_nan => None
  | S754_infinity s => Some (if s then Gt else Lt)
  | S754_zero _ => Some (z ?= 0)
  | S754_finite s m e =>
      let v := cond_Zopp s (Zpos m) in
      Some (if 0 <=? e then z ?= v * 2 ^ e else z * 2 ^ (- e) ?= v)
  end.

Definition compare (a b : num) : option comparison :=
  match a, b with
  | PyInt x, PyInt y => Some (x ?= y)
  | PyFloat x, PyFloat y => SFcompare x y
  | PyInt x, PyFloat y => cmp_int_float x y
  | PyFloat x, PyInt y => CompOpp <$> cmp_int_float y x
  end.

Definition gt (a b : num) : bool :=
  match compare a b with
  | Some Gt => true
  | _ => false
  end.

Definition is_zero (a : num) : bool :=
  match a with
  | PyInt x => x =? 0
  | PyFloat (S754_zero _) => true
  | PyFloat _ => false
  end.

(** The rational value of a finite float with a non-negative exponent is
    an integer; this reads it. *)
Definition integral_value (f : spec_float) : option Z :=
  match f with
  | S754_zero _ => Some 0
  | S754_finite s m e =>
      if 0 <=? e then Some (cond_Zopp s (Zpos m) * 2 ^ e) else None
  | _ => None
  end.

End PyNum.

Export PyNum (num, PyInt, PyFloat).

(** ** Values, exceptions and results *)

Inductive value :=
| VNone
| VBool (b : bool)
| VNum (n : num)
| VStr (s : string)
| VList (l : list value)
| VDict (d : list (string * value)).

(** Keyword arguments, in call order. *)
Abbreviation kwargs := (list (string * value)).

(** An exception value: an instance of [Exception], with its class name
    and the text [str(e)] gives.  What is raised without being one
    ([SystemExit], [KeyboardInterrupt]) is not modelled. *)
Record exn := Exn { exn_class : string; exn_msg : string }.

Definition KeyError (k : string) : exn := Exn "KeyError" ("'" ++ k ++ "'").
Definition IndexError : exn := Exn "IndexError" "list index out of range".
Definition TypeError (msg : string) : exn := Exn "TypeError" msg.
Definition AttributeError (msg : string) : exn := Exn "AttributeError" msg.
Definition OverflowError : exn :=
  Exn "OverflowError" "int too large to convert to float".

Inductive result (A : Type) :=
| Ok (a : A)
| Raise (e : exn).
Arguments Ok {A} a.
Arguments Raise {A} e.

Definition is_ok {A} (r : result A) : bool :=
  match r with Ok _ => true | Raise _ => false end.

(** ** Operations of the Python data model used by the tools *)

Definition assoc (k : string) (d : kwargs) : option value :=
  snd <$> List.find (fun kv => String.eqb (fst kv) k) d.

Definition truthy (v : value) : bool :=
  match v with
  | VNone => false
  | VBool b => b
  | VNum n => negb (PyNum.is_zero n)
  | VStr s => negb (String.eqb s "")
  | VList l => match l with [] => false | _ => true end
  | VDict d => match d with [] => false | _ => true end
  end.

Definition type_name (v : value) : string :=
  match v with
  | VNone => "NoneType"
  | VBool _ => "bool"
  | VNum (PyInt _) => "int"
  | VNum (PyFloat _) => "float"
  | VStr _ => "str"
  | VList _ => "list"
  | VDict _ => "dict"
  end.

(** [d.get(k, dflt)] *)
Definition dict_get (v : value) (k : string) (dflt : value) : result value :=
  match v with
  | VDict d => Ok (default dflt (assoc k d))
  | _ => Raise (AttributeError
           ("'" ++ type_name v ++ "' object has no attribute 'get'"))
  end.

(** [v[k]] with a string key *)
Definition subscript_str (v : value) (k : string) : result value :=
  match v with
  | VDict d =>
      match assoc k d with
      | Some x => Ok x
      | None => Raise (KeyError k)
      end
  | VList _ => Raise (TypeError "list indices must be integers or slices, not str")
  | VStr _ => Raise (TypeError "string indices must be integers, not 'str'")
  | _ => Raise (TypeError ("'" ++ type_name v ++ "' object is not subscriptable"))
  end.

(** [v[0]] *)
Definition subscript_0 (v : value) : result value :=
  match v with
  | VList (x :: _) => Ok x
  | VList [] => Raise IndexError
  | VStr (String c _) => Ok (VStr (String c ""))
  | VStr "" => Raise (Exn "IndexError" "string index out of range")
  | VDict _ => Raise (Exn "KeyError" "0")
  | _ => Raise (TypeError ("'" ++ type_name v ++ "' object is not subscriptable"))
  end.

(** The operand of an arithmetic operator: a bool counts as an int. *)
Definition as_num (v : value) : option num :=
  match v with
  | VNum n => Some n
  | VBool b => Some (PyInt (if b then 1 else 0))
  | _ => None
  end.

Definition binop (sym : string) (op : num -> num -> option num)
    (a b : value) : result value :=
  match as_num a, as_num b with
  | Some x, Some y =>
      match op x y with
      | Some r => Ok (VNum r)
      | None => Raise OverflowError
      end
  | _, _ => Raise (TypeError
      ("unsupported operand type(s) for " ++ sym ++ ": '" ++ type_name a
         ++ "' and '" ++ type_name b ++ "'"))
  end.

Definition py_add : value -> value -> result value := binop "+" PyNum.add.
Definition py_sub : value -> value -> result value := binop "-" PyNum.sub.
Definition py_mul : value -> value -> result value := binop "*" PyNum.mul.

Definition py_abs (a : value) : result value :=
  match as_num a with
  | Some x => Ok (VNum (PyNum.abs x))
  | None => Raise (TypeError
      ("bad operand type for abs(): '" ++ type_name a ++ "'"))
  end.

(** [a > b] on the operands that reach it in this program: both sides
    have already passed through [py_sub]. *)
Definition py_gt (a b : value) : result bool :=
  match as_num a, as_num b with
  | Some x, Some y => Ok (PyNum.gt x y)
  | _, _ => Raise (TypeError
      ("'>' not supported between instances of '" ++ type_name a
         ++ "' and '" ++ type_name b ++ "'"))
  end.

(** ** Signatures, tool descriptors and decisions

    The module imports [dspy.Signature], [dspy.InputField],
    [dspy.OutputField] and [dspy.ReAct]; it defines none of them.  Their
    shape is taken from sections 3 and 4 of the specification.
    [MathAgentSignature] and its siblings declare one input field and one
    output field, both [str], and carry their docstring as instructions. *)

(** Modelled from the spec: the types a field or a parameter may have
    (section 3: string, number, boolean, structured record); the type
    behind the annotations of [dspy] is not in the module. *)
Inductive ty := TString | TNumber | TBoolean | TRecord.

(** Modelled from the spec: a field of a signature, as [dspy.InputField]
    and [dspy.OutputField] (not in the module) declare it: a name, a type
    and a description. *)
Record Field := { f_name : string; f_ty : ty; f_desc : string }.

(** Modelled from the spec: [dspy.Signature] (not in the module), section
    3: named, typed input and output fields and an instruction text. *)
Record Signature := {
  sig_instructions : string;
  sig_inputs : list Field;
  sig_outputs : list Field
}.

(** Modelled from the spec: the tool descriptor of section 3, which
    [dspy] (not in the module) reads off a function: name, description,
    ordered parameters and return type.  No function of the module has a
    parameter with a default. *)
Record ToolDescriptor := {
  td_name : string;
  td_desc : string;
  td_params : list (string * ty);
  td_return : ty
}.

(** Modelled from the spec: the check that a value satisfies a declared
    type (section 4.1, steps 3 and 4); the validation of [dspy] is not in
    the module. *)
Definition well_typed (t : ty) (v : value) : bool :=
  match t, v with
  | TString, VStr _ => true
  | TNumber, VNum _ => true
  | TBoolean, VBool _ => true
  | TRecord, VDict _ => true
  | _, _ => false
  end.

(** Modelled from the spec: the empty or zero value that fills a missing
    output field (section 4.1, step 4); no such code is in the module. *)
Definition zero_value (t : ty) : value :=
  match t with
  | TString => VStr ""
  | TNumber => VNum (PyInt 0)
  | TBoolean => VBool false
  | TRecord => VDict []
  end.

(** Modelled from the spec: what the decision capability answers
    (section 4.1, step 2), exactly one of two shapes; the capability is
    the language model behind [dspy], not in the module. *)
Inductive Decision :=
| ToolCall (thought : string) (name : string) (args : kwargs)
| Finish (thought : string) (outputs : kwargs).

(** Modelled from the spec: what the decision capability is shown each
    turn (section 4.1, step 1); built inside [dspy], not in the module. *)
Record DecisionContext := {
  ctx_signature : Signature;
  ctx_tools : list ToolDescriptor;
  ctx_trajectory : gmap string value;
  ctx_input : kwargs
}.

(** ** The world

    Everything outside the module is a collaborator: the wall clock, the
    time-zone database, the HTTP service, the language model and the
    renderings of Python's own [str] and [format].  An [Env] fixes how
    each of them answers its [k]-th consultation; the world counts the
    consultations and keeps what was printed. *)

Record response := { json : result value }.

Record Env := {
  (** [time.time()] *)
  clock : nat -> spec_float;
  (** [datetime.now(pytz.timezone(zone)).strftime("%Y-%m-%d %H:%M:%S %Z")] *)
  now_strftime : string -> nat -> string;
  (** [requests.get(url, timeout=10)] *)
  http_get : string -> nat -> result response;
  (** the language model set by [dspy.configure] *)
  lm_decide : DecisionContext -> nat -> result Decision;
  (** output fields drawn from a last observation *)
  lm_synthesize : Signature -> option string -> kwargs;
  (** [str(v)] for a float, a list or a dict *)
  repr_other : value -> string;
  (** [f"{x:.2f}"] *)
  format_2f : spec_float -> string
}.

Record World := { stdout : list string; tick : nat }.

Definition M (A : Type) : Type := World -> result A * World.

Definition ret {A} (a : A) : M A := fun w => (Ok a, w).

Definition raise {A} (e : exn) : M A := fun w => (Raise e, w).

Definition bind {A B} (m : M A) (k : A -> M B) : M B :=
  fun w =>
    match m w with
    | (Ok a, w') => k a w'
    | (Raise e, w') => (Raise e, w')
    end.

Definition lift {A} (r : result A) : M A := fun w => (r, w).

(** [try: body / except Exception as e: handler(e)], on the exceptions
    that are modelled, every one an instance of [Exception]. *)
Definition try_except {A} (body : M A) (handler : exn -> M A) : M A :=
  fun w =>
    match body w with
    | (Ok a, w') => (Ok a, w')
    | (Raise e, w') => handler e w'
    end.

Declare Scope py_scope.
Delimit Scope py_scope with py.
Notation "x <- m ;; k" := (bind m (fun x => k))
  (at level 100, m at next level, right associativity) : py_scope.
Notation "m ;;; k" := (bind m (fun _ => k))
  (at level 100, right associativity) : py_scope.
Local Open Scope py_scope.

Definition print (s : string) : M unit :=
  fun w => (Ok tt, {| stdout := stdout w ++ [s]; tick := tick w |}).

(** One consultation of a collaborator. *)
Definition ticked (w : World) : World :=
  {| stdout := stdout w; tick := S (tick w) |}.

Definition consult {A} (oracle : nat -> A) : M A :=
  fun w => (Ok (oracle (tick w)), ticked w).

Definition nl : string := String "010"%char "".

Definition num_result (o : option num) : result num :=
  match o with
  | Some r => Ok r
  | None => Raise OverflowError
  end.

(** ** Predictions *)

(** Modelled from the spec: the flag of a Final Result (sections 4.1 and
    7): finished, finished with fields filled in, or out of budget.
    [dspy.Prediction] is not in the module. *)
Inductive Outcome := Finished | MalformedFinish | BudgetExceeded.

(** Modelled from the spec: [dspy.Prediction] is imported, not defined.
    The Final Result of section 3 is the declared output fields populated
    with values, the attached trajectory and the reasoning text of the
    terminating turn.  The module reads it through [.trajectory],
    [.items()] and the attribute of the output field. *)
Record Prediction := {
  pred_trajectory : gmap string value;
  pred_reasoning : string;
  pred_outputs : kwargs;
  pred_outcome : Outcome
}.

(** [isinstance(result, dspy.Prediction)], decided by the static type of
    what a traced function returns. *)
Class IsInstance (R : Type) := as_prediction : R -> option Prediction.

#[export] Instance prediction_is_instance : IsInstance Prediction := Some.
#[export] Instance value_is_instance : IsInstance value := fun _ => None.

(** Modelled from the spec: [prediction.items()], a method of the missing
    [dspy.Prediction]: the trajectory, the reasoning and the output
    fields of the Final Result, by name. *)
Definition items (p : Prediction) : kwargs :=
  ("trajectory", VDict (map_to_list (pred_trajectory p)))
    :: ("reasoning", VStr (pred_reasoning p))
    :: pred_outputs p.

(** Modelled from the spec: [prediction.<name>], attribute access of the
    missing [dspy.Prediction], for an output field of the Final Result. *)
Definition getattr (p : Prediction) (name : string) : result value :=
  match assoc name (pred_outputs p) with
  | Some v => Ok v
  | None => Raise (AttributeError
      ("'Prediction' object has no attribute '" ++ name ++ "'"))
  end.

(** The key under which turn [i] stores [field]: [f'{field}_{i}']. *)
Definition turn_key (field : string) (i : nat) : string :=
  field ++ "_" ++ pretty i.

(** ** Leaf tools that need no collaborator *)

Definition add_numbers (a b : num) : result num := num_result (PyNum.add a b).

Definition multiply_numbers (a b : num) : result num :=
  num_result (PyNum.mul a b).

(** [str.isspace] on one character *)
Definition py_isspace (c : ascii) : bool :=
  let n := nat_of_ascii c in
  ((9 <=? n) && (n <=? 13) || (28 <=? n) && (n <=? 32)
   || (n =? 133) || (n =? 160))%nat.

(** [text.split()]: the maximal runs of characters that are not white
    space.  [cur] is the run being read, newest character first. *)
Fixpoint split_go (cur : option string) (text : string) : list string :=
  match text with
  | "" => option_list (String.rev <$> cur)
  | String c rest =>
      if py_isspace c
      then option_list (String.rev <$> cur) ++ split_go None rest
      else split_go (Some (String c (default "" cur))) rest
  end.

Definition split (text : string) : list string := split_go None text.

Definition count_words (text : string) : nat := length (split text).

(** [text[::-1]] *)
Definition reverse_text (text : string) : string := String.rev text.

Section Program.

Variable E : Env.

(** [str(v)], as an f-string field renders it *)
Definition str_of (v : value) : string :=
  match v with
  | VStr s => s
  | VNone => "None"
  | VBool true => "True"
  | VBool false => "False"
  | VNum (PyInt z) => pretty z
  | _ => repr_other E v
  end.

(** *** The trace renderer *)

(** [while f'thought_{max_iter}' in trajectory: max_iter += 1].  The
    loop stops at the first missing key; [fuel] bounds the number of
    keys it can find, and the size of the dict is enough
    ([count_thoughts_enough]). *)
Fixpoint count_thoughts (fuel : nat) (trajectory : gmap string value)
    (max_iter : nat) : nat :=
  match fuel with
  | O => max_iter
  | S fuel' =>
      if decide (is_Some (trajectory !! turn_key "thought" max_iter))
      then count_thoughts fuel' trajectory (S max_iter)
      else max_iter
  end.

Definition print_turn (trajectory : gmap string value) (i : nat) : M unit :=
  let thought := default (VStr "") (trajectory !! turn_key "thought" i) in
  let tool_name := default (VStr "") (trajectory !! turn_key "tool_name" i) in
  let tool_args := default (VDict []) (trajectory !! turn_key "tool_args" i) in
  let observation :=
    default (VStr "") (trajectory !! turn_key "observation" i) in
  print (nl ++ "   💭 Thinking: " ++ str_of thought) ;;;
  print ("   🔧 Action: " ++ str_of tool_name
           ++ "(" ++ str_of tool_args ++ ")") ;;;
  print ("   📊 Result: " ++ str_of observation).

Fixpoint for_each {A} (l : list A) (body : A -> M unit) : M unit :=
  match l with
  | [] => ret tt
  | x :: rest => body x ;;; for_each rest body
  end.

Definition print_react_trajectory (prediction : Prediction) : M unit :=
  let trajectory := pred_trajectory prediction in
  if decide (trajectory = ∅) then ret tt
  else
    let max_iter := count_thoughts (size trajectory) trajectory 0 in
    for_each (seq 0 max_iter) (print_turn trajectory).

(** *** The tracing decorator *)

Definition print_final_answer (result : Prediction) : M unit :=
  print (nl ++ "   ✨ Final Answer:") ;;;
  for_each (items result) (fun kv =>
    if decide (fst kv ∈ ["trajectory"; "reasoning"]) then ret tt
    else print ("      " ++ fst kv ++ ": " ++ str_of (snd kv))).

Definition elapsed_since (start_time : spec_float) : M spec_float :=
  now <- consult (clock E) ;;
  ret (SFsub PyNum.prec PyNum.emax now start_time).

(** The [if isinstance(result, dspy.Prediction):] block *)
Definition print_if_prediction {R : Type} `{IsInstance R} (result : R)
    : M unit :=
  match as_prediction result with
  | Some p => print_react_trajectory p ;;; print_final_answer p
  | None => ret tt
  end.

Definition trace_agent {Args R : Type} `{IsInstance R} (agent_name : string)
    (func : Args -> kwargs -> M R) : Args -> kwargs -> M R :=
  fun args kw =>
    print (nl ++ "🤖 [" ++ agent_name ++ "] STARTED") ;;;
    print ("   📥 Input: " ++ str_of (VDict kw)) ;;;
    start_time <- consult (clock E) ;;
    try_except
      (result <- func args kw ;;
       elapsed <- elapsed_since start_time ;;
       print_if_prediction result ;;;
       print (nl ++ "   ⏱️  Completed in " ++ format_2f E elapsed ++ "s") ;;;
       print ("✅ [" ++ agent_name ++ "] FINISHED" ++ nl) ;;;
       ret result)
      (fun e =>
         elapsed <- elapsed_since start_time ;;
         print ("   ❌ Error: " ++ exn_msg e) ;;;
         print ("   ⏱️  Failed after " ++ format_2f E elapsed ++ "s") ;;;
         print ("❌ [" ++ agent_name ++ "] FAILED" ++ nl) ;;;
         raise e).

(** *** Leaf tools that consult a collaborator *)

Definition get_usa_time : M string :=
  consult (now_strftime E "America/New_York").

Definition get_china_time : M string :=
  consult (now_strftime E "Asia/Shanghai").

(** [requests.get(url, timeout=10)]: a response, or the failure the
    library raises (a connection error, a timeout). *)
Definition requests_get (url : string) : M response :=
  r <- consult (http_get E url) ;;
  lift r.

Definition geocoding_url (name : string) : string :=
  "https://geocoding-api.open-meteo.com/v1/search?name=" ++ name
    ++ "&count=1&language=en&format=json".

Definition get_weather_by_city (city_name : string) : M string :=
  try_except
    (geo_response <- requests_get (geocoding_url city_name) ;;
     geo_data <- lift (json geo_response) ;;
     found <- lift (dict_get geo_data "results" VNone) ;;
     if negb (truthy found) then
       ret ("City '" ++ city_name ++ "' not found")
     else
       results <- lift (subscript_str geo_data "results") ;;
       location <- lift (subscript_0 results) ;;
       lat <- lift (subscript_str location "latitude") ;;
       lon <- lift (subscript_str location "longitude") ;;
       city <- lift (subscript_str location "name") ;;
       country <- lift (dict_get location "country" (VStr "Unknown")) ;;
       let weather_url :=
         "https://api.open-meteo.com/v1/forecast?latitude=" ++ str_of lat
           ++ "&longitude=" ++ str_of lon
           ++ "&current=temperature_2m,relative_humidity_2m,wind_speed_10m,weather_code" in
       weather_response <- requests_get weather_url ;;
       weather_data <- lift (json weather_response) ;;
       current <- lift (subscript_str weather_data "current") ;;
       temp <- lift (subscript_str current "temperature_2m") ;;
       humidity <- lift (subscript_str current "relative_humidity_2m") ;;
       wind_speed <- lift (subscript_str current "wind_speed_10m") ;;
       ret ("Weather in " ++ str_of city ++ ", " ++ str_of country
              ++ ": Temperature: " ++ str_of temp ++ "°C, Humidity: "
              ++ str_of humidity ++ "%, Wind Speed: " ++ str_of wind_speed
              ++ " km/h"))
    (fun e => ret ("Error fetching weather: " ++ exn_msg e)).

(** [temps[city]] *)
Definition temps_get (temps : gmap string value) (city : string)
    : result value :=
  match temps !! city with
  | Some t => Ok t
  | None => Raise (KeyError city)
  end.

(** The [for city in [city1, city2]] loop.  [inl] is the early
    [return] of the not-found message, [inr] the dict after the loop. *)
Fixpoint fetch_temps (cities : list string) (temps : gmap string value)
    : M (string + gmap string value) :=
  match cities with
  | [] => ret (inr temps)
  | city :: rest =>
      geo_response <- requests_get (geocoding_url city) ;;
      geo_data <- lift (json geo_response) ;;
      found <- lift (dict_get geo_data "results" VNone) ;;
      if negb (truthy found) then
        ret (inl ("City '" ++ city ++ "' not found"))
      else
        results <- lift (subscript_str geo_data "results") ;;
        location <- lift (subscript_0 results) ;;
        lat <- lift (subscript_str location "latitude") ;;
        lon <- lift (subscript_str location "longitude") ;;
        let weather_url :=
          "https://api.open-meteo.com/v1/forecast?latitude=" ++ str_of lat
            ++ "&longitude=" ++ str_of lon ++ "&current=temperature_2m" in
        weather_response <- requests_get weather_url ;;
        weather_data <- lift (json weather_response) ;;
        current <- lift (subscript_str weather_data "current") ;;
        temp <- lift (subscript_str current "temperature_2m") ;;
        fetch_temps rest (<[city := temp]> temps)
  end.

Definition compare_city_temperatures (city1 city2 : string) : M string :=
  try_except
    (r <- fetch_temps [city1; city2] ∅ ;;
     match r with
     | inl not_found => ret not_found
     | inr temps =>
         t1 <- lift (temps_get temps city1) ;;
         t2 <- lift (temps_get temps city2) ;;
         d <- lift (py_sub t1 t2) ;;
         diff <- lift (py_abs d) ;;
         gt <- lift (py_gt t1 t2) ;;
         let warmer := if gt : bool then city1 else city2 in
         ret ("Temperature comparison: " ++ city1 ++ ": " ++ str_of t1
                ++ "°C, " ++ city2 ++ ": " ++ str_of t2 ++ "°C. " ++ warmer
                ++ " is warmer by " ++ str_of diff ++ "°C")
     end)
    (fun e => ret ("Error comparing temperatures: " ++ exn_msg e)).

(** *** The reasoning-acting loop

    [dspy.ReAct] is imported, not defined, by this module; what follows
    is the engine of sections 4.1 and 4.2 of the specification.
    Cancellation and time-outs (section 5) are left out. *)

(** Modelled from the spec: an entry of a tool registry (section 4.2), a
    descriptor and the capability to invoke; [dspy.Tool] is not in the
    module. *)
Record Tool := {
  tool_descriptor : ToolDescriptor;
  tool_call : kwargs -> M value
}.

Definition tool_name (t : Tool) : string := td_name (tool_descriptor t).

(** Modelled from the spec: [resolve(name)] of section 4.2, missing with
    [dspy.ReAct]; [None] is [UnknownTool]. *)
Definition resolve (registry : list Tool) (name : string) : option Tool :=
  List.find (fun t => String.eqb (tool_name t) name) registry.

(** Modelled from the spec: the validation of section 4.2, missing with
    [dspy.ReAct]: every parameter is supplied with a value of its type,
    and nothing else is supplied. *)
Definition args_valid (params : list (string * ty)) (args : kwargs) : bool :=
  forallb (fun p =>
             match assoc (fst p) args with
             | Some v => well_typed (snd p) v
             | None => false
             end) params
  && forallb (fun kv => existsb (fun p => String.eqb (fst p) (fst kv)) params)
       args.

(** Modelled from the spec: the error kinds of section 7 that a turn
    absorbs; the module has no such type. *)
Inductive LoopError :=
| UnknownTool (name : string)
| InvalidToolCall (name : string)
| ToolExecutionError (name : string) (e : exn).

(** Modelled from the spec: a failure as the observation string of its
    turn (section 4.1, step 3: failures are stringified); the wording of
    the string is not given by the module. *)
Definition error_observation (err : LoopError) : string :=
  match err with
  | UnknownTool name => "UnknownTool: " ++ name
  | InvalidToolCall name => "InvalidToolCall: " ++ name
  | ToolExecutionError name e =>
      "ToolExecutionError in " ++ name ++ ": " ++ exn_msg e
  end.

(** Modelled from the spec: step 3 of section 4.1, inside the missing
    [dspy.ReAct]: validate, execute, and capture the outcome. *)
Definition observe (registry : list Tool) (name : string) (args : kwargs)
    : M string :=
  match resolve registry name with
  | None => ret (error_observation (UnknownTool name))
  | Some tool =>
      if args_valid (td_params (tool_descriptor tool)) args then
        try_except
          (v <- tool_call tool args ;; ret (str_of v))
          (fun e => ret (error_observation (ToolExecutionError name e)))
      else ret (error_observation (InvalidToolCall name))
  end.

(** Modelled from the spec: appending turn [i] (section 4.1, step 3),
    done inside the missing [dspy.ReAct].  The four parts go under the
    keys that [print_react_trajectory] reads. *)
Definition append_turn (i : nat) (thought name : string) (args : kwargs)
    (observation : string) (trajectory : gmap string value)
    : gmap string value :=
  <[turn_key "observation" i := VStr observation]>
    (<[turn_key "tool_args" i := VDict args]>
       (<[turn_key "tool_name" i := VStr name]>
          (<[turn_key "thought" i := VStr thought]> trajectory))).

(** Modelled from the spec: step 4 of section 4.1, missing with
    [dspy.ReAct]: is a declared output field present and well typed. *)
Definition field_ok (outputs : kwargs) (f : Field) : bool :=
  match assoc (f_name f) outputs with
  | Some v => well_typed (f_ty f) v
  | None => false
  end.

(** Modelled from the spec: step 4 of section 4.1, missing with
    [dspy.ReAct]: every declared output field, with the zero value where
    it was left out or mistyped. *)
Definition fill_outputs (sig : Signature) (outputs : kwargs) : kwargs :=
  map (fun f =>
         (f_name f,
          if field_ok outputs f
          then default (zero_value (f_ty f)) (assoc (f_name f) outputs)
          else zero_value (f_ty f)))
      (sig_outputs sig).

(** Modelled from the spec: the result of a finish decision (section
    4.1, step 4), built inside the missing [dspy.ReAct]. *)
Definition finish (sig : Signature) (trajectory : gmap string value)
    (thought : string) (outputs : kwargs) : Prediction :=
  {| pred_trajectory := trajectory;
     pred_reasoning := thought;
     pred_outputs := fill_outputs sig outputs;
     pred_outcome :=
       if forallb (field_ok outputs) (sig_outputs sig)
       then Finished else MalformedFinish |}.

(** Modelled from the spec: step 5 of section 4.1, missing with
    [dspy.ReAct]: the best-effort result once the budget is spent. *)
Definition budget_exceeded (sig : Signature)
    (trajectory : gmap string value) (last : option string) : Prediction :=
  {| pred_trajectory := trajectory;
     pred_reasoning := "";
     pred_outputs := fill_outputs sig (lm_synthesize E sig last);
     pred_outcome := BudgetExceeded |}.

(** Modelled from the spec: the state machine of section 4.1, missing
    with [dspy.ReAct]: its one state, and the state after it. *)
Inductive LoopState :=
| AwaitingDecision (i : nat) (trajectory : gmap string value)
    (last : option string)
| Terminated (p : Prediction).

Section Loop.

Variable sig : Signature.
Variable registry : list Tool.
Variable max_iters : nat.
Variable input : kwargs.

(** Modelled from the spec: entering iteration [i] of the missing
    [dspy.ReAct] loop (section 4.1, step 5): a decision is awaited while
    the budget lasts. *)
Definition enter (i : nat) (trajectory : gmap string value)
    (last : option string) : LoopState :=
  if decide (i < max_iters)%nat then AwaitingDecision i trajectory last
  else Terminated (budget_exceeded sig trajectory last).

(** Modelled from the spec: steps 1 and 2 of section 4.1, missing with
    [dspy.ReAct].  A failure of the capability itself is the one failure
    that leaves the loop (section 7). *)
Definition decide_next (trajectory : gmap string value) : M Decision :=
  r <- consult (lm_decide E
         {| ctx_signature := sig;
            ctx_tools := map tool_descriptor registry;
            ctx_trajectory := trajectory;
            ctx_input := input |}) ;;
  lift r.

(** Modelled from the spec: one iteration of the missing [dspy.ReAct]
    loop, steps 1 to 4 of section 4.1. *)
Definition turn (i : nat) (trajectory : gmap string value) : M LoopState :=
  d <- decide_next trajectory ;;
  match d with
  | ToolCall thought name args =>
      observation <- observe registry name args ;;
      ret (enter (S i)
             (append_turn i thought name args observation trajectory)
             (Some observation))
  | Finish thought outputs =>
      ret (Terminated (finish sig trajectory thought outputs))
  end.

(** Modelled from the spec: the iterations of the missing [dspy.ReAct]
    loop until the machine stops.  [fuel] only makes the recursion
    structural: from [enter 0] the machine stops within [max_iters]
    iterations ([drive_steps]). *)
Fixpoint drive (fuel : nat) (s : LoopState) : M Prediction :=
  match s with
  | Terminated p => ret p
  | AwaitingDecision i trajectory last =>
      match fuel with
      | O => ret (budget_exceeded sig trajectory last)
      | S fuel' => s' <- turn i trajectory ;; drive fuel' s'
      end
  end.

(** Modelled from the spec: [run(signature, registry, max_iters, input)]
    of section 4.1, the call of the missing [dspy.ReAct]. *)
Definition run : M Prediction := drive max_iters (enter 0 ∅ None).

End Loop.

(** Modelled from the spec: what [dspy.ReAct(signature=..., tools=...,
    max_iters=...)] is built from; the class is not in the module. *)
Record ReAct := {
  rp_signature : Signature;
  rp_tools : list Tool;
  rp_max_iters : nat
}.

(** Modelled from the spec: calling a [dspy.ReAct] object, which the
    module does and does not define: one run of the loop of section 4.1. *)
Definition react_call (program : ReAct) (input : kwargs) : M Prediction :=
  run (rp_signature program) (rp_tools program) (rp_max_iters program) input.

(** *** Registry entries

    A registry entry is the function together with the descriptor read
    off its name, annotations and docstring (the first line of it), and
    the call of the function on the keyword arguments. *)

Definition describe (name desc : string) (params : list (string * ty))
    (ret_ty : ty) : ToolDescriptor :=
  {| td_name := name; td_desc := desc; td_params := params;
     td_return := ret_ty |}.

Definition bad_call (name : string) : exn :=
  TypeError (name ++ "() got unexpected or missing keyword arguments").

Definition call_num2 (name : string) (f : num -> num -> result num)
    (args : kwargs) : M value :=
  match assoc "a" args, assoc "b" args with
  | Some (VNum a), Some (VNum b) => r <- lift (f a b) ;; ret (VNum r)
  | _, _ => raise (bad_call name)
  end.

Definition call_str1 (name param : string) (f : string -> M value)
    (args : kwargs) : M value :=
  match assoc param args with
  | Some (VStr s) => f s
  | _ => raise (bad_call name)
  end.

Definition add_numbers_tool : Tool :=
  {| tool_descriptor :=
       describe "add_numbers" "Add two numbers together and return the sum."
         [("a", TNumber); ("b", TNumber)] TNumber;
     tool_call := call_num2 "add_numbers" add_numbers |}.

Definition multiply_numbers_tool : Tool :=
  {| tool_descriptor :=
       describe "multiply_numbers"
         "Multiply two numbers together and return the product."
         [("a", TNumber); ("b", TNumber)] TNumber;
     tool_call := call_num2 "multiply_numbers" multiply_numbers |}.

Definition math_tools : list Tool := [add_numbers_tool; multiply_numbers_tool].

Definition count_words_tool : Tool :=
  {| tool_descriptor :=
       describe "count_words" "Count the number of words in the given text."
         [("text", TString)] TNumber;
     tool_call := call_str1 "count_words" "text"
       (fun text => ret (VNum (PyInt (Z.of_nat (count_words text))))) |}.

Definition reverse_text_tool : Tool :=
  {| tool_descriptor :=
       describe "reverse_text"
         "Reverse the given text and return it backwards."
         [("text", TString)] TString;
     tool_call := call_str1 "reverse_text" "text"
       (fun text => ret (VStr (reverse_text text))) |}.

Definition text_tools : list Tool := [count_words_tool; reverse_text_tool].

Definition call_0 (name : string) (f : M string) (args : kwargs) : M value :=
  match args with
  | [] => s <- f ;; ret (VStr s)
  | _ => raise (bad_call name)
  end.

Definition get_usa_time_tool : Tool :=
  {| tool_descriptor :=
       describe "get_usa_time" "Get the current time in USA (Eastern Time)."
         [] TString;
     tool_call := call_0 "get_usa_time" get_usa_time |}.

Definition get_china_time_tool : Tool :=
  {| tool_descriptor :=
       describe "get_china_time"
         "Get the current time in China (Beijing Time)." [] TString;
     tool_call := call_0 "get_china_time" get_china_time |}.

Definition time_tools : list Tool := [get_usa_time_tool; get_china_time_tool].

Definition get_weather_by_city_tool : Tool :=
  {| tool_descriptor :=
       describe "get_weather_by_city"
         "Get current weather information for a given city using Open-Meteo API."
         [("city_name", TString)] TString;
     tool_call := call_str1 "get_weather_by_city" "city_name"
       (fun city_name => s <- get_weather_by_city city_name ;; ret (VStr s)) |}.

Definition compare_city_temperatures_tool : Tool :=
  {| tool_descriptor :=
       describe "compare_city_temperatures"
         "Compare temperatures between two cities."
         [("city1", TString); ("city2", TString)] TString;
     tool_call := fun args =>
       match assoc "city1" args, assoc "city2" args with
       | Some (VStr city1), Some (VStr city2) =>
           s <- compare_city_temperatures city1 city2 ;; ret (VStr s)
       | _, _ => raise (bad_call "compare_city_temperatures")
       end |}.

Definition weather_tools : list Tool :=
  [get_weather_by_city_tool; compare_city_temperatures_tool].

(** *** The four specialists *)

Definition str_field (name desc : string) : Field :=
  {| f_name := name; f_ty := TString; f_desc := desc |}.

Definition signature1 (doc in_name in_desc out_name out_desc : string)
    : Signature :=
  {| sig_instructions := doc;
     sig_inputs := [str_field in_name in_desc];
     sig_outputs := [str_field out_name out_desc] |}.

Definition MathAgentSignature : Signature :=
  signature1 "Signature for mathematical operations agent"
    "math_query" "A mathematical question or operation request"
    "math_result" "The result of the mathematical operation".

Definition TextAgentSignature : Signature :=
  signature1 "Signature for text processing operations agent"
    "text_query" "A text processing question or operation request"
    "text_result" "The result of the text processing operation".

Definition TimeAgentSignature : Signature :=
  signature1
    "Find the timezone or location in the input query and return the corresponding time."
    "time_query" "A time-related question or timezone request"
    "time_result" "The current time in the requested timezone".

Definition WeatherAgentSignature : Signature :=
  signature1
    "Find weather and temperature information and structure into the requested output form."
    "weather_query"
    "A weather-related question about cities or temperature comparison"
    "weather_result" "Weather information or temperature comparison results".

(** [self.react_program], as [__init__] builds it *)
Definition MathAgent : ReAct :=
  {| rp_signature := MathAgentSignature; rp_tools := math_tools;
     rp_max_iters := 3 |}.

Definition TextAgent : ReAct :=
  {| rp_signature := TextAgentSignature; rp_tools := text_tools;
     rp_max_iters := 3 |}.

Definition TimeAgent : ReAct :=
  {| rp_signature := TimeAgentSignature; rp_tools := time_tools;
     rp_max_iters := 3 |}.

Definition WeatherAgent : ReAct :=
  {| rp_signature := WeatherAgentSignature; rp_tools := weather_tools;
     rp_max_iters := 3 |}.

(** [forward(self, <query>=...)], before decoration: the keyword is
    bound and handed to the loop under the same name. *)
Definition forward_body (program : ReAct) (param : string)
    (self : unit) (kw : kwargs) : M Prediction :=
  match kw with
  | [(k, q)] =>
      if String.eqb k param then react_call program [(param, q)]
      else raise (bad_call "forward")
  | _ => raise (bad_call "forward")
  end.

Definition MathAgent_forward : unit -> kwargs -> M Prediction :=
  trace_agent "MathAgent" (forward_body MathAgent "math_query").

Definition TextAgent_forward : unit -> kwargs -> M Prediction :=
  trace_agent "TextAgent" (forward_body TextAgent "text_query").

Definition TimeAgent_forward : unit -> kwargs -> M Prediction :=
  trace_agent "TimeAgent" (forward_body TimeAgent "time_query").

Definition WeatherAgent_forward : unit -> kwargs -> M Prediction :=
  trace_agent "WeatherAgent" (forward_body WeatherAgent "weather_query").

(** *** The adapters: a fresh agent, one call, one field *)

Definition math_calculator (math_query : string) : M value :=
  let math_agent := tt in
  prediction <- MathAgent_forward math_agent
                  [("math_query", VStr math_query)] ;;
  lift (getattr prediction "math_result").

Definition text_processor (text_query : string) : M value :=
  let text_agent := tt in
  prediction <- TextAgent_forward text_agent
                  [("text_query", VStr text_query)] ;;
  lift (getattr prediction "text_result").

Definition time_checker (time_query : string) : M value :=
  let time_agent := tt in
  prediction <- TimeAgent_forward time_agent
                  [("time_query", VStr time_query)] ;;
  lift (getattr prediction "time_result").

Definition weather_checker (weather_query : string) : M value :=
  let weather_agent := tt in
  prediction <- WeatherAgent_forward weather_agent
                  [("weather_query", VStr weather_query)] ;;
  lift (getattr prediction "weather_result").

(** *** The coordinator *)

Definition adapter_tool (name desc param : string)
    (f : string -> M value) : Tool :=
  {| tool_descriptor := describe name desc [(param, TString)] TString;
     tool_call := call_str1 name param f |}.

Definition math_calculator_tool : Tool :=
  adapter_tool "math_calculator"
    "Math Calculator Agent: Performs mathematical operations"
    "math_query" math_calculator.

Definition text_processor_tool : Tool :=
  adapter_tool "text_processor"
    "Text Processor Agent: Performs text operations"
    "text_query" text_processor.

Definition time_checker_tool : Tool :=
  adapter_tool "time_checker"
    "Time Checker Agent: Provides current time information"
    "time_query" time_checker.

Definition weather_checker_tool : Tool :=
  adapter_tool "weather_checker"
    "Weather Checker Agent: Provides real-time weather information"
    "weather_query" weather_checker.

Definition MainAgentSignature : Signature :=
  signature1
    "You are an intelligent coordinator that breaks down complex queries into sub-tasks."
    "user_query"
    "User's potentially multi-part query requiring one or more specialist agents"
    "final_answer"
    "Complete answer combining results from all relevant agents".

(** [self.root_program] *)
Definition MainAgent : ReAct :=
  {| rp_signature := MainAgentSignature;
     rp_tools := [math_calculator_tool; text_processor_tool;
                  time_checker_tool; weather_checker_tool];
     rp_max_iters := 5 |}.

Definition MainAgent_forward (user_query : string) : M Prediction :=
  react_call MainAgent [("user_query", VStr user_query)].

End Program.


(** * Vocabulary of the properties *)

(** ** Trajectories as sequences of turns *)

Definition turn_fields : list string :=
  ["thought"; "tool_name"; "tool_args"; "observation"].

(** The four keys of turn [i]. *)
Definition keys_of_turn (i : nat) : gset string :=
  list_to_set ((fun field => turn_key field i) <$> turn_fields).

(** The keys of turns [0 .. n-1]. *)
Fixpoint turn_keys (n : nat) : gset string :=
  match n with
  | O => ∅
  | S k => turn_keys k ∪ keys_of_turn k
  end.

(** A trajectory holds exactly the turns [0 .. n-1]. *)
Definition contiguous (trajectory : gmap string value) (n : nat) : Prop :=
  dom trajectory = turn_keys n.

Definition state_trajectory (s : LoopState) : gmap string value :=
  match s with
  | AwaitingDecision _ trajectory _ => trajectory
  | Terminated p => pred_trajectory p
  end.

(** The iterations of one run, as a relation between the states and
    worlds it passes through. *)
Inductive steps (E : Env) (sig : Signature) (registry : list Tool)
    (max_iters : nat) (input : kwargs)
    : LoopState → World → LoopState → World → Prop :=
| steps_here s w : steps E sig registry max_iters input s w s w
| steps_turn i trajectory last w s1 w1 s2 w2 :
    turn E sig registry max_iters input i trajectory w = (Ok s1, w1) →
    steps E sig registry max_iters input s1 w1 s2 w2 →
    steps E sig registry max_iters input
      (AwaitingDecision i trajectory last) w s2 w2.

(** What holds of every state of a run. *)
Definition within_budget (max_iters : nat) (s : LoopState) : Prop :=
  match s with
  | AwaitingDecision i trajectory _ =>
      (i < max_iters)%nat ∧ contiguous trajectory i
  | Terminated p =>
      ∃ n, (n ≤ max_iters)%nat ∧ contiguous (pred_trajectory p) n
  end.


(** ** Decision capabilities and environments used as examples *)

Definition is_tool_call (r : result Decision) : bool :=
  match r with
  | Ok (ToolCall _ _ _) => true
  | _ => false
  end.

(** A capability that always requests a tool call and never finishes. *)
Definition always_calls (E : Env) : Prop :=
  ∀ ctx k, is_tool_call (lm_decide E ctx k) = true.

(** The binary64 number 1.5. *)
Definition float_1_5 : spec_float := S754_finite false 6755399441055744 (-52).

(** An environment around a given capability.  [second k] is the second
    the wall clock shows at consultation [k]; the network is down, and the
    last observation is offered for every output field. *)
Definition make_env (second : nat → nat)
    (capability : DecisionContext → nat → result Decision) : Env :=
  {| clock := fun k => S754_zero false;
     now_strftime := fun zone k =>
       if String.eqb zone "America/New_York"
       then "2025-01-01 12:00:0" ++ pretty (second k) ++ " EST"
       else "2025-01-02 01:00:0" ++ pretty (second k) ++ " CST";
     http_get := fun url k =>
       Raise (Exn "ConnectionError" "Network is unreachable");
     lm_decide := capability;
     lm_synthesize := fun sig last =>
       map (fun f => (f_name f, VStr (default "" last))) (sig_outputs sig);
     repr_other := fun v => "<" ++ type_name v ++ ">";
     format_2f := fun _ => "0.00" |}.

(** The second advances with every consultation. *)
Definition example_env : (DecisionContext → nat → result Decision) → Env :=
  make_env (fun k => (k mod 10)%nat).

(** The clock stands still. *)
Definition frozen_env : (DecisionContext → nat → result Decision) → Env :=
  make_env (fun _ => 0%nat).

Definition initial_world : World := {| stdout := []; tick := 0 |}.

(** Asks for [add_numbers(a=1, b=2)], every time. *)
Definition keeps_adding (ctx : DecisionContext) (k : nat) : result Decision :=
  Ok (ToolCall "I should add the numbers" "add_numbers"
        [("a", VNum (PyInt 1)); ("b", VNum (PyInt 2))]).

(** Asks for [add_numbers(a=10**400, b=1.5)], every time: the call fails
    with [OverflowError]. *)
Definition keeps_overflowing (ctx : DecisionContext) (k : nat)
    : result Decision :=
  Ok (ToolCall "I should add the numbers" "add_numbers"
        [("a", VNum (PyInt (10 ^ 400))); ("b", VNum (PyFloat float_1_5))]).


(** ** A failing tool, as a property of one run

    In every state a run from [w0] passes through, a decision for a tool
    whose execution raises is followed by a state that awaits a further
    decision and holds the failure as the observation of the turn. *)
Definition failure_then_further_decision (E : Env) (sig : Signature)
    (registry : list Tool) (max_iters : nat) (input : kwargs) (w0 : World)
    : Prop :=
  ∀ i trajectory last w thought name args w1 tool e w2,
    steps E sig registry max_iters input (enter E sig max_iters 0 ∅ None) w0
      (AwaitingDecision i trajectory last) w →
    decide_next E sig registry input trajectory w
      = (Ok (ToolCall thought name args), w1) →
    resolve registry name = Some tool →
    args_valid (td_params (tool_descriptor tool)) args = true →
    tool_call tool args w1 = (Raise e, w2) →
    ∃ trajectory' last',
      turn E sig registry max_iters input i trajectory w
        = (Ok (AwaitingDecision (S i) trajectory' last'), w2)
      ∧ trajectory' !! turn_key "observation" i
        = Some (VStr (error_observation (ToolExecutionError name e))).


(** ** Invoking twice *)

(** The result of [m] does not depend on the world it starts in. *)
Definition insensitive {A} (m : M A) : Prop :=
  ∀ w w', fst (m w) = fst (m w').

(** The results of two invocations in a row. *)
Definition twice {A} (m : M A) (w : World) : result A * result A :=
  let '(r1, w1) := m w in (r1, fst (m w1)).

Definition same_trajectory (r1 r2 : result Prediction) : Prop :=
  match r1, r2 with
  | Ok p1, Ok p2 => pred_trajectory p1 = pred_trajectory p2
  | Raise e1, Raise e2 => e1 = e2
  | _, _ => False
  end.

(** A stubbed capability: its answer depends on the context alone. *)
Definition deterministic_capability (E : Env) : Prop :=
  ∀ ctx k k', lm_decide E ctx k = lm_decide E ctx k'.

(** The clock and the network answer the same at every consultation. *)
Definition stationary_collaborators (E : Env) : Prop :=
  (∀ zone k k', now_strftime E zone k = now_strftime E zone k')
  ∧ (∀ url k k', http_get E url k = http_get E url k').

Definition pure_tool (t : Tool) : Prop :=
  ∀ args, insensitive (tool_call t args).

(** Asks for the time in the USA, then finishes with what it observed. *)
Definition asks_usa_time (ctx : DecisionContext) (k : nat) : result Decision :=
  match ctx_trajectory ctx !! turn_key "observation" 0 with
  | Some observation =>
      Ok (Finish "I have the time" [("time_result", observation)])
  | None => Ok (ToolCall "I need the time in the USA" "get_usa_time" [])
  end.


Definition identical_twice {A} (m : M A) : Prop :=
  ∀ w, fst (twice m w) = snd (twice m w).


(** ** Printing, returning, and the shape of a weather answer *)

Definition prints_only (m : M unit) : Prop :=
  ∀ w, ∃ out, m w = (Ok tt, {| stdout := stdout w ++ out; tick := tick w |}).

(** The world in which the decorator starts the function it wraps: two
    lines are printed and the clock has been read once. *)
Definition traced_entry (E : Env) (agent_name : string) (kw : kwargs)
    (w : World) : World :=
  {| stdout := stdout w
       ++ [nl ++ "🤖 [" ++ agent_name ++ "] STARTED";
           "   📥 Input: " ++ str_of E (VDict kw)];
     tick := S (tick w) |}.

(** Whatever [m] returns satisfies [P]; nothing is said when it raises. *)
Definition returns {A} (m : M A) (P : A → Prop) : Prop :=
  ∀ w, match fst (m w) with Ok a => P a | Raise _ => True end.

Definition starts_with (p s : string) : Prop := ∃ rest, s = p ++ rest.

Definition weather_report (city_name s : string) : Prop :=
  starts_with "Weather in " s
  ∨ s = "City '" ++ city_name ++ "' not found"
  ∨ starts_with "Error fetching weather: " s.

Definition comparison_report (city1 city2 s : string) : Prop :=
  starts_with "Temperature comparison: " s
  ∨ s = "City '" ++ city1 ++ "' not found"
  ∨ s = "City '" ++ city2 ++ "' not found"
  ∨ starts_with "Error comparing temperatures: " s.


(** ** What an adapter owes its caller

    [adapter] wraps the specialist [program], traced as [agent_name];
    [tool] is its name in the coordinator's registry.  Whatever the
    specialist's loop does on the query decides what the adapter returns
    and what the coordinator observes. *)
Definition adapter_contract (E : Env) (agent_name : string) (program : ReAct)
    (param field tool : string) (adapter : string → M value) : Prop :=
  ∀ q w,
    let kw := [(param, VStr q)] in
    match fst (react_call E program kw (traced_entry E agent_name kw w)) with
    | Ok p =>
        ∃ s, getattr p field = Ok (VStr s)
             ∧ fst (adapter q w) = Ok (VStr s)
             ∧ fst (observe E (rp_tools (MainAgent E)) tool kw w) = Ok s
    | Raise e =>
        fst (adapter q w) = Raise e
        ∧ fst (observe E (rp_tools (MainAgent E)) tool kw w)
          = Ok (error_observation (ToolExecutionError tool e))
    end.

(** The coordinator's registry entry [t] is the adapter [adapter]. *)
Definition is_adapter_entry (t : Tool) (name param : string)
    (adapter : string → M value) : Prop :=
  tool_name t = name
  ∧ td_params (tool_descriptor t) = [(param, TString)]
  ∧ ∀ q, tool_call t [(param, VStr q)] = adapter q.


(** ** The scenario "what is 5 plus 3" *)

Definition five_plus_three : kwargs := [("math_query", VStr "what is 5 plus 3")].

(** A capability that parses the intent of that query: it asks for
    [add_numbers(a=5, b=3)] and finishes with the sum it observed. *)
Definition parses_intent (ctx : DecisionContext) (k : nat) : result Decision :=
  match ctx_trajectory ctx !! turn_key "observation" 0 with
  | Some observation =>
      Ok (Finish "The sum has been computed" [("math_result", observation)])
  | None =>
      Ok (ToolCall "The question asks for a sum" "add_numbers"
            [("a", VNum (PyInt 5)); ("b", VNum (PyInt 3))])
  end.

(** The largest odd integer a binary64 holds exactly, as a float. *)
Definition float_2p53m1 : spec_float := S754_finite false 9007199254740991 0.


(** An environment whose network is up: the geocoder knows Berlin and
    Cairo, and everywhere it is 12 degrees, except in Cairo. *)
Definition geocoder_answer (url : string) : value :=
  if String.eqb url (geocoding_url "berlin") then
    VDict [("results",
            VList [VDict [("latitude", VNum (PyInt 52));
                          ("longitude", VNum (PyInt 13));
                          ("name", VStr "Berlin");
                          ("country", VStr "Germany")]])]
  else if String.eqb url (geocoding_url "cairo") then
    VDict [("results",
            VList [VDict [("latitude", VNum (PyInt 30));
                          ("longitude", VNum (PyInt 31));
                          ("name", VStr "Cairo")]])]
  else VDict [("generationtime_ms", VNum (PyInt 1))].

Definition forecast_answer (url : string) : value :=
  VDict [("current",
          VDict [("temperature_2m",
                  VNum (PyInt (if String.prefix
                        "https://api.open-meteo.com/v1/forecast?latitude=30"
                        url then 31 else 12)));
                 ("relative_humidity_2m", VNum (PyInt 80));
                 ("wind_speed_10m", VNum (PyInt 7))])].

Definition service_env : Env :=
  {| clock := fun k => S754_zero false;
     now_strftime := fun zone k => "2025-01-01 12:00:00 EST";
     http_get := fun url k =>
       Ok {| json :=
               Ok (if String.prefix "https://geocoding-api" url
                   then geocoder_answer url else forecast_answer url) |};
     lm_decide := keeps_adding;
     lm_synthesize := fun sig last => [];
     repr_other := fun v => "<" ++ type_name v ++ ">";
     format_2f := fun _ => "0.00" |}.


(** ** Characters of a text *)

(** Every character of [s] satisfies [P]. *)
Fixpoint all_chars (P : ascii → bool) (s : string) : bool :=
  match s with
  | "" => true
  | String c rest => P c && all_chars P rest
  end.

(** A word as [split] yields them: not empty, and free of white space. *)
Definition is_word (s : string) : Prop :=
  s ≠ "" ∧ all_chars (fun c => negb (py_isspace c)) s = true.


(** ** Where words start and end

    A word starts at a character that is not white space and follows
    white space (or the start of the text); it ends at a character that
    is not white space and precedes white space (or the end). *)

Definition indicator (b : bool) : nat := if b then 1%nat else 0%nat.

Fixpoint word_starts (after_space : bool) (s : string) : nat :=
  match s with
  | "" => 0%nat
  | String c rest =>
      (indicator (after_space && negb (py_isspace c))
       + word_starts (py_isspace c) rest)%nat
  end.

(** Is the first character white space?  The end of the text counts as
    white space. *)
Definition first_space (s : string) : bool :=
  match s with
  | "" => true
  | String c _ => py_isspace c
  end.

(** Is the last character white space?  [before] answers for the empty
    text. *)
Fixpoint last_space (before : bool) (s : string) : bool :=
  match s with
  | "" => before
  | String c rest => last_space (py_isspace c) rest
  end.

Fixpoint word_ends (s : string) : nat :=
  match s with
  | "" => 0%nat
  | String c rest =>
      (indicator (negb (py_isspace c) && first_space rest)
       + word_ends rest)%nat
  end.


(** ** What a traced call leaves on the console *)

(** The first two lines of a traced call. *)
Definition started_line (agent_name : string) : string :=
  nl ++ "🤖 [" ++ agent_name ++ "] STARTED".

Definition input_line (E : Env) (kw : kwargs) : string :=
  "   📥 Input: " ++ str_of E (VDict kw).

(** The line with the elapsed time of a traced call that returned. *)
Definition completed_line (E : Env) (start_time now : spec_float) : string :=
  nl ++ "   ⏱️  Completed in "
    ++ format_2f E (SFsub PyNum.prec PyNum.emax now start_time) ++ "s".

(** The last line of a traced call: finished or failed. *)
Definition closing_line {A} (agent_name : string) (r : result A) : string :=
  match r with
  | Ok _ => "✅ [" ++ agent_name ++ "] FINISHED" ++ nl
  | Raise _ => "❌ [" ++ agent_name ++ "] FAILED" ++ nl
  end.


(** ** The requests of the weather tools *)

(** The URL [get_weather_by_city] asks the forecast from. *)
Definition forecast_url (E : Env) (lat lon : value) : string :=
  "https://api.open-meteo.com/v1/forecast?latitude=" ++ str_of E lat
    ++ "&longitude=" ++ str_of E lon
    ++ "&current=temperature_2m,relative_humidity_2m,wind_speed_10m,weather_code".

(** The URL [compare_city_temperatures] asks the temperature from. *)
Definition temperature_url (E : Env) (lat lon : value) : string :=
  "https://api.open-meteo.com/v1/forecast?latitude=" ++ str_of E lat
    ++ "&longitude=" ++ str_of E lon ++ "&current=temperature_2m".

(** [m] prints nothing and consults collaborators at least [lo] and at
    most [hi] times, whether it returns or raises. *)
Definition consults_between {A} (lo hi : nat) (m : M A) : Prop :=
  ∀ w, stdout (snd (m w)) = stdout w
       ∧ (tick w + lo ≤ tick (snd (m w)) ≤ tick w + hi)%nat.

(** A geocoder answer that knows no such place: a JSON object whose
    ["results"] is absent, null or empty. *)
Definition no_results (geo : value) : Prop :=
  ∃ d, geo = VDict d ∧ truthy (default VNone (assoc "results" d)) = false.


(** At consultation [k] the geocoder answers for [city] with a JSON
    object whose first result is the object [loc], holding the
    coordinates [lat] and [lon]. *)
Definition geocoded (E : Env) (city : string) (k : nat)
    (loc : kwargs) (lat lon : value) : Prop :=
  ∃ r g rest,
    http_get E (geocoding_url city) k = Ok r
    ∧ json r = Ok (VDict g)
    ∧ assoc "results" g = Some (VList (VDict loc :: rest))
    ∧ assoc "latitude" loc = Some lat
    ∧ assoc "longitude" loc = Some lon.

(** At consultation [k] the forecast service answers for the
    coordinates with a JSON object whose ["current"] object is [cur]. *)
Definition forecast_at (E : Env) (url : string) (k : nat) (cur : kwargs)
    : Prop :=
  ∃ r d,
    http_get E url k = Ok r
    ∧ json r = Ok (VDict d)
    ∧ assoc "current" d = Some (VDict cur).

(** At consultation [k] the forecast service gives the number [t] as
    the temperature at the coordinates. *)
Definition temperature_at (E : Env) (lat lon : value) (k : nat) (t : num)
    : Prop :=
  ∃ cur,
    forecast_at E (temperature_url E lat lon) k cur
    ∧ assoc "temperature_2m" cur = Some (VNum t).

(** The first of [keys] that the JSON object [d] lacks. *)
Definition first_missing (keys : list string) (d : kwargs) : option string :=
  List.find (fun k => match assoc k d with None => true | Some _ => false end)
    keys.


(** ** Specialist calls, as the console shows them

    [trace_agent] prints the STARTED line first thing, once per call of
    the agent it wraps, and no other line of the module begins like it:
    the STARTED lines a computation adds to the console count the calls
    of traced agents it makes. *)

Fixpoint has_prefix (p s : string) : bool :=
  match p, s with
  | "", _ => true
  | String a p', String b s' => Ascii.eqb a b && has_prefix p' s'
  | String _ _, "" => false
  end.

Definition is_started_line (line : string) : bool :=
  has_prefix (nl ++ "🤖 [") line.

Definition started_count (out : list string) : nat :=
  length (List.filter is_started_line out).

(** [m] keeps what was printed and adds at least [lo] and at most [hi]
    STARTED lines, whether it returns or raises. *)
Definition announces {A} (lo hi : nat) (m : M A) : Prop :=
  ∀ w, ∃ out,
    stdout (snd (m w)) = (stdout w ++ out)%list
    ∧ (lo ≤ started_count out ≤ hi)%nat.


(** * Properties *)

(** ** Strings *)

Lemma rev_app_rev_app (a b c : string) :
  String.rev_app (String.rev_app a b) c = String.rev_app b (a ++ c).
Proof.
  revert b c. induction a as [|x a IH]; intros b c.
  - reflexivity.
  - cbn [String.rev_app]. rewrite IH. reflexivity.
Qed.

Lemma rev_app_length (a b : string) :
  String.length (String.rev_app a b) = (String.length a + String.length b)%nat.
Proof.
  revert b. induction a as [|x a IH]; intros b.
  - reflexivity.
  - cbn [String.rev_app String.length]. rewrite IH. cbn [String.length]. lia.
Qed.

Lemma append_empty_r (s : string) : s ++ "" = s.
Proof.
  induction s as [|x s IH]; [reflexivity|].
  change (String x s ++ "") with (String x (s ++ "")). by rewrite IH.
Qed.

(** C9. [reverse_text] undoes itself, and the reversed text is as long as
    the text. *)
Theorem reverse_text_involution (s : string) :
  reverse_text (reverse_text s) = s
  ∧ String.length (reverse_text s) = String.length s.
Proof.
  unfold reverse_text, String.rev. split.
  - rewrite rev_app_rev_app. cbn [String.rev_app]. apply append_empty_r.
  - rewrite rev_app_length. cbn [String.length]. lia.
Qed.

Example reverse_text_abc : reverse_text "abc" = "cba".
Proof. reflexivity. Qed.

Example count_words_three : count_words "  what is   5 plus" = 4%nat.
Proof. reflexivity. Qed.

(** ** Computations that only print *)

Lemma prints_only_ret : prints_only (ret tt).
Proof. intros w. exists []. rewrite app_nil_r. by destruct w. Qed.

Lemma prints_only_print (s : string) : prints_only (print s).
Proof. intros w. by exists [s]. Qed.

Lemma prints_only_seq (m k : M unit) :
  prints_only m → prints_only k → prints_only (m ;;; k).
Proof.
  intros Hm Hk w. unfold bind.
  destruct (Hm w) as [o1 ->]. destruct (Hk {| stdout := stdout w ++ o1; tick := tick w |}) as [o2 ->].
  exists (o1 ++ o2)%list. cbn. by rewrite app_assoc.
Qed.

Lemma prints_only_for_each {A} (l : list A) (body : A → M unit) :
  (∀ x, prints_only (body x)) → prints_only (for_each l body).
Proof.
  intros Hbody. induction l as [|x l IH]; cbn [for_each].
  - apply prints_only_ret.
  - by apply prints_only_seq.
Qed.

Create HintDb prints.
#[local] Hint Resolve prints_only_ret prints_only_print prints_only_seq
  prints_only_for_each : prints.

Lemma prints_only_trajectory (E : Env) (p : Prediction) :
  prints_only (print_react_trajectory E p).
Proof.
  unfold print_react_trajectory. case_decide; [auto with prints|].
  apply prints_only_for_each. intros i. unfold print_turn. auto with prints.
Qed.

Lemma prints_only_final_answer (E : Env) (p : Prediction) :
  prints_only (print_final_answer E p).
Proof.
  unfold print_final_answer. apply prints_only_seq; [auto with prints|].
  apply prints_only_for_each. intros kv. case_decide; auto with prints.
Qed.

(** ** The tracing decorator *)

Lemma trace_agent_result (E : Env) {Args R : Type} `{IsInstance R}
    (agent_name : string) (func : Args → kwargs → M R)
    (args : Args) (kw : kwargs) (w : World) :
  ∃ out,
    trace_agent E agent_name func args kw w
    = let '(r, w') := func args kw (traced_entry E agent_name kw w) in
      (r, {| stdout := stdout w' ++ out; tick := S (tick w') |}).
Proof.
  unfold trace_agent, bind, try_except, print, consult, ticked, traced_entry.
  cbn [stdout tick]. rewrite <- app_assoc. cbn [app].
  destruct (func args kw _) as [[r|e] w1].
  - unfold elapsed_since, bind, consult, ticked, ret. cbn [stdout tick].
    assert (prints_only (print_if_prediction E r)) as Hp.
    { unfold print_if_prediction. destruct (as_prediction r);
        auto using prints_only_trajectory, prints_only_final_answer
          with prints. }
    destruct (Hp {| stdout := stdout w1; tick := S (tick w1) |}) as [o ->].
    cbn [stdout tick]. eexists. rewrite <- !app_assoc. reflexivity.
  - unfold elapsed_since, bind, consult, ticked, ret, raise. cbn [stdout tick].
    eexists. rewrite <- !app_assoc. reflexivity.
Qed.

Lemma trace_agent_fst (E : Env) {Args R : Type}
    `{IsInstance R} (agent_name : string) (func : Args → kwargs → M R)
    (args : Args) (kw : kwargs) (w : World) :
  fst (trace_agent E agent_name func args kw w)
  = fst (func args kw (traced_entry E agent_name kw w)).
Proof.
  destruct (trace_agent_result E agent_name func args kw w) as [out ->].
  by destruct (func args kw _).
Qed.

(** C8. A traced call returns what the wrapped function returns, and
    raises what it raises: the result of [trace_agent name func] is the
    result of [func], run in the world the decorator starts it in. *)
Theorem trace_agent_pure_observer (E : Env) {Args R : Type} `{IsInstance R}
    (agent_name : string) (func : Args → kwargs → M R)
    (args : Args) (kw : kwargs) (w : World) :
  fst (trace_agent E agent_name func args kw w)
  = fst (func args kw (traced_entry E agent_name kw w)).
Proof. apply trace_agent_fst. Qed.

(** ** The weather tools *)

Lemma returns_ret {A} (a : A) (P : A → Prop) : P a → returns (ret a) P.
Proof. intros Ha w. exact Ha. Qed.

Lemma returns_bind {A B} (m : M A) (k : A → M B) (P : B → Prop) :
  (∀ a, returns (k a) P) → returns (x <- m ;; k x) P.
Proof.
  intros Hk w. unfold bind. destruct (m w) as [[a|e] w']; [|exact I].
  apply Hk.
Qed.

(** A [try] whose handler returns a string returns a string. *)
Lemma try_except_returns (body : M string) (handler : exn → string)
    (P : string → Prop) (w : World) :
  returns body P → (∀ e, P (handler e)) →
  ∃ s w', try_except body (fun e => ret (handler e)) w = (Ok s, w') ∧ P s.
Proof.
  intros Hbody Hhandler. unfold try_except. specialize (Hbody w).
  destruct (body w) as [[s|e] w'] eqn:Hrun; cbn in Hbody.
  - by exists s, w'.
  - by exists (handler e), w'.
Qed.

Ltac step_returns :=
  repeat (apply returns_bind; intros ?).

Lemma get_weather_by_city_total (E : Env) (city_name : string) (w : World) :
  ∃ s w', get_weather_by_city E city_name w = (Ok s, w')
          ∧ weather_report city_name s.
Proof.
  unfold get_weather_by_city. apply try_except_returns.
  - step_returns. destruct (negb _).
    + apply returns_ret. right; left. reflexivity.
    + step_returns. apply returns_ret. left. eexists. reflexivity.
  - intros e. right; right. eexists. reflexivity.
Qed.

Lemma fetch_temps_returns (E : Env) (city1 city2 : string)
    (cities : list string) (temps : gmap string value) :
  cities ⊆ [city1; city2] →
  returns (fetch_temps E cities temps)
    (fun r => match r with
              | inl s => comparison_report city1 city2 s
              | inr _ => True
              end).
Proof.
  revert temps. induction cities as [|city rest IH]; intros temps Hsub.
  - by apply returns_ret.
  - cbn [fetch_temps]. step_returns. destruct (negb _).
    + apply returns_ret.
      assert (city ∈ [city1; city2]) as Hin by (apply Hsub; left).
      apply elem_of_cons in Hin as [->|Hin]; [right; left; reflexivity|].
      apply list_elem_of_singleton in Hin as ->. right; right; left. reflexivity.
    + step_returns. apply IH. intros x Hx. apply Hsub. by right.
Qed.

Lemma compare_city_temperatures_total (E : Env) (city1 city2 : string)
    (w : World) :
  ∃ s w', compare_city_temperatures E city1 city2 w = (Ok s, w')
          ∧ comparison_report city1 city2 s.
Proof.
  unfold compare_city_temperatures. apply try_except_returns.
  - intros w0. unfold bind.
    pose proof (fetch_temps_returns E city1 city2 [city1; city2] ∅
                  (reflexivity _) w0) as Hloop.
    destruct (fetch_temps E [city1; city2] ∅ w0) as [[[s|temps]|e] w1];
      cbn in Hloop; [exact Hloop| |exact I].
    apply (returns_bind _ _ _); intros t1. step_returns.
    apply returns_ret. left. eexists. reflexivity.
  - intros e. right; right; right. eexists. reflexivity.
Qed.

Example weather_in_berlin :
  fst (get_weather_by_city service_env "berlin" initial_world)
  = Ok "Weather in Berlin, Germany: Temperature: 12°C, Humidity: 80%, Wind Speed: 7 km/h".
Proof. vm_compute. reflexivity. Qed.

Example weather_in_cairo_without_country :
  fst (get_weather_by_city service_env "cairo" initial_world)
  = Ok "Weather in Cairo, Unknown: Temperature: 31°C, Humidity: 80%, Wind Speed: 7 km/h".
Proof. vm_compute. reflexivity. Qed.

Example weather_nowhere :
  fst (get_weather_by_city service_env "atlantis" initial_world)
  = Ok "City 'atlantis' not found".
Proof. vm_compute. reflexivity. Qed.

Example weather_network_down :
  fst (get_weather_by_city (example_env keeps_adding) "berlin" initial_world)
  = Ok "Error fetching weather: Network is unreachable".
Proof. vm_compute. reflexivity. Qed.

Example compare_berlin_cairo :
  fst (compare_city_temperatures service_env "berlin" "cairo" initial_world)
  = Ok "Temperature comparison: berlin: 12°C, cairo: 31°C. cairo is warmer by 19°C".
Proof. vm_compute. reflexivity. Qed.

Example compare_second_city_unknown :
  fst (compare_city_temperatures service_env "berlin" "atlantis" initial_world)
  = Ok "City 'atlantis' not found".
Proof. vm_compute. reflexivity. Qed.

(** C10. Both weather tools always return a string, whatever the HTTP
    service and the JSON decoder do: a report, a not-found message, or a
    message that starts with the error indication.  No exception leaves
    the tool body. *)
Theorem weather_tools_total (E : Env) (w : World) :
  (∀ city_name,
     ∃ s w', get_weather_by_city E city_name w = (Ok s, w')
             ∧ weather_report city_name s)
  ∧ (∀ city1 city2,
       ∃ s w', compare_city_temperatures E city1 city2 w = (Ok s, w')
               ∧ comparison_report city1 city2 s).
Proof.
  split; intros.
  - apply get_weather_by_city_total.
  - apply compare_city_temperatures_total.
Qed.

(** ** Keys of a trajectory *)

Lemma turn_key_inj (field : string) (i j : nat) :
  turn_key field i = turn_key field j → i = j.
Proof.
  unfold turn_key. intros Heq.
  apply (inj (String.app field)) in Heq.
  apply (inj (String.app "_")) in Heq.
  by apply (inj pretty) in Heq.
Qed.

Lemma turn_key_field (f g : string) (i j : nat) :
  f ∈ turn_fields → g ∈ turn_fields →
  turn_key f i = turn_key g j → f = g.
Proof.
  unfold turn_key. generalize (pretty i) (pretty j). intros x y Hf Hg.
  unfold turn_fields in *.
  repeat (apply elem_of_cons in Hf as [->|Hf]);
    [..|by apply elem_of_nil in Hf];
    (repeat (apply elem_of_cons in Hg as [->|Hg]);
       [..|by apply elem_of_nil in Hg]);
    intros Heq; try reflexivity; cbv in Heq; discriminate.
Qed.

Lemma elem_of_keys_of_turn (k : string) (i : nat) :
  k ∈ keys_of_turn i ↔ ∃ field, field ∈ turn_fields ∧ k = turn_key field i.
Proof.
  unfold keys_of_turn. rewrite elem_of_list_to_set, list_elem_of_fmap.
  split; intros (f & ? & ?); exists f; auto.
Qed.

Lemma elem_of_turn_keys (k : string) (n : nat) :
  k ∈ turn_keys n
  ↔ ∃ field i, field ∈ turn_fields ∧ (i < n)%nat ∧ k = turn_key field i.
Proof.
  induction n as [|n IH]; cbn [turn_keys].
  - split; [set_solver|]. intros (? & ? & ? & ? & ?). lia.
  - rewrite elem_of_union, IH, elem_of_keys_of_turn. split.
    + intros [(f & i & ? & ? & ?)|(f & ? & ?)].
      * exists f, i. repeat split; auto; lia.
      * exists f, n. repeat split; auto; lia.
    + intros (f & i & ? & Hi & ?).
      destruct (decide (i = n)) as [->|]; [right; eauto|].
      left. exists f, i. repeat split; auto; lia.
Qed.

Lemma turn_key_fresh (field : string) (i n : nat) :
  field ∈ turn_fields → (n ≤ i)%nat → turn_key field i ∉ turn_keys n.
Proof.
  intros Hf Hle (g & j & Hg & Hj & Heq)%elem_of_turn_keys.
  assert (field = g) as -> by eauto using turn_key_field.
  apply turn_key_inj in Heq. lia.
Qed.

Lemma turn_field_thought : "thought" ∈ turn_fields.
Proof. unfold turn_fields. set_solver. Qed.
Lemma turn_field_tool_name : "tool_name" ∈ turn_fields.
Proof. unfold turn_fields. set_solver. Qed.
Lemma turn_field_tool_args : "tool_args" ∈ turn_fields.
Proof. unfold turn_fields. set_solver. Qed.
Lemma turn_field_observation : "observation" ∈ turn_fields.
Proof. unfold turn_fields. set_solver. Qed.

#[local] Hint Resolve turn_field_thought turn_field_tool_name
  turn_field_tool_args turn_field_observation : core.

Lemma dom_append_turn (i : nat) (thought name : string) (args : kwargs)
    (observation : string) (trajectory : gmap string value) :
  dom (append_turn i thought name args observation trajectory)
  = dom trajectory ∪ keys_of_turn i.
Proof.
  unfold append_turn, keys_of_turn, turn_fields.
  rewrite !dom_insert_L. cbn [fmap list_fmap list_to_set]. set_solver.
Qed.

Lemma contiguous_empty : contiguous ∅ 0.
Proof. unfold contiguous. cbn [turn_keys]. apply dom_empty_L. Qed.

Lemma contiguous_append (i : nat) (thought name : string) (args : kwargs)
    (observation : string) (trajectory : gmap string value) :
  contiguous trajectory i →
  contiguous (append_turn i thought name args observation trajectory) (S i).
Proof.
  unfold contiguous. intros Hdom. rewrite dom_append_turn, Hdom. reflexivity.
Qed.

(** Appending turn [i] to a trajectory of [i] turns changes no entry. *)
Lemma append_turn_extends (i : nat) (thought name : string) (args : kwargs)
    (observation : string) (trajectory : gmap string value) :
  contiguous trajectory i →
  trajectory ⊆ append_turn i thought name args observation trajectory.
Proof.
  intros Hdom. apply map_subseteq_spec. intros k v Hk.
  assert (k ∈ turn_keys i) as Hin.
  { rewrite <- Hdom. apply elem_of_dom. eauto. }
  unfold append_turn.
  rewrite !lookup_insert_ne; [exact Hk|..]; intros <-;
    (eapply turn_key_fresh; [| |exact Hin]; [auto|lia]).
Qed.

Lemma lookup_thought_contiguous (trajectory : gmap string value) (n k : nat) :
  contiguous trajectory n →
  is_Some (trajectory !! turn_key "thought" k) ↔ (k < n)%nat.
Proof.
  intros Hdom. rewrite <- elem_of_dom, Hdom, elem_of_turn_keys. split.
  - intros (f & j & Hf & Hj & Heq).
    assert ("thought" = f) as <- by eauto using turn_key_field.
    apply turn_key_inj in Heq. lia.
  - intros Hk. exists "thought", k. auto.
Qed.

Lemma count_thoughts_from (trajectory : gmap string value) (n fuel k : nat) :
  contiguous trajectory n → (k ≤ n)%nat → (n - k ≤ fuel)%nat →
  count_thoughts fuel trajectory k = n.
Proof.
  intros Hdom. revert k. induction fuel as [|fuel IH]; intros k Hk Hfuel.
  - cbn. lia.
  - cbn [count_thoughts]. case_decide as Hsome.
    + apply (lookup_thought_contiguous _ n) in Hsome; [|done].
      apply IH; lia.
    + rewrite (lookup_thought_contiguous _ n) in Hsome by done. lia.
Qed.

Lemma size_turn_keys (n : nat) : (n ≤ size (turn_keys n))%nat.
Proof.
  induction n as [|n IH]; [lia|]. cbn [turn_keys].
  assert ({[turn_key "thought" n]} ⊆ keys_of_turn n) as Hsub.
  { apply singleton_subseteq_l, elem_of_keys_of_turn. eauto. }
  assert (turn_keys n ## {[turn_key "thought" n]}) as Hdisj.
  { apply disjoint_singleton_r, turn_key_fresh; auto. }
  etrans; [|apply (subseteq_size (turn_keys n ∪ {[turn_key "thought" n]}))].
  - rewrite size_union by done. rewrite size_singleton. lia.
  - set_solver.
Qed.

Lemma count_thoughts_spec (trajectory : gmap string value) (fuel k : nat) :
  let n := count_thoughts fuel trajectory k in
  (k ≤ n ≤ k + fuel)%nat
  ∧ (∀ j, (k ≤ j < n)%nat → is_Some (trajectory !! turn_key "thought" j))
  ∧ ((n < k + fuel)%nat → trajectory !! turn_key "thought" n = None).
Proof.
  revert k. induction fuel as [|fuel IH]; intros k; cbn [count_thoughts].
  - cbn. repeat split; intros; lia.
  - case_decide as Hsome.
    + destruct (IH (S k)) as (Hle & Hin & Hout). cbn in *.
      repeat split; [lia..| |].
      * intros j Hj. destruct (decide (j = k)) as [->|]; [done|].
        apply Hin. lia.
      * intros Hlt. apply Hout. lia.
    + cbn. repeat split; [lia..| |].
      * intros j Hj. lia.
      * intros _. by apply eq_None_not_Some.
Qed.

(** The scan of the renderer ends at a key that is missing, on any
    dict: the fuel it is given is never what ends it. *)
Lemma count_thoughts_enough (trajectory : gmap string value) :
  let n := count_thoughts (size trajectory) trajectory 0 in
  (∀ j, (j < n)%nat → is_Some (trajectory !! turn_key "thought" j))
  ∧ trajectory !! turn_key "thought" n = None.
Proof.
  destruct (count_thoughts_spec trajectory (size trajectory) 0)
    as (Hle & Hin & Hout).
  cbn. set (n := count_thoughts (size trajectory) trajectory 0) in *.
  split; [intros j Hj; apply Hin; lia|].
  destruct (decide (n < size trajectory)%nat) as [Hlt|Hge];
    [apply Hout; lia|].
  assert (n = size trajectory) as Hn by lia.
  set (found := turn_key "thought" <$> seq 0 n).
  assert (NoDup found) as Hnodup.
  { apply NoDup_fmap_2; [|apply NoDup_seq].
    intros i j. apply turn_key_inj. }
  assert (list_to_set (C := gset string) found ⊆ dom trajectory) as Hsub.
  { intros key Hkey. apply elem_of_list_to_set in Hkey.
    apply list_elem_of_fmap in Hkey as (j & -> & Hj).
    apply elem_of_seq in Hj. apply elem_of_dom, Hin. lia. }
  assert (size (list_to_set (C := gset string) found) = n) as Hsize.
  { rewrite size_list_to_set by done. unfold found.
    by rewrite length_fmap, length_seq. }
  assert (list_to_set (C := gset string) found = dom trajectory) as Hall.
  { apply set_subseteq_size_eq; [done|]. rewrite size_dom, Hsize. lia. }
  apply not_elem_of_dom. rewrite <- Hall.
  rewrite elem_of_list_to_set. intros Hkey.
  apply list_elem_of_fmap in Hkey as (j & Heq & Hj).
  apply turn_key_inj in Heq. apply elem_of_seq in Hj. lia.
Qed.

(** On the trajectory of a run the renderer counts exactly its turns. *)
Lemma count_thoughts_contiguous (trajectory : gmap string value) (n : nat) :
  contiguous trajectory n →
  count_thoughts (size trajectory) trajectory 0 = n.
Proof.
  intros Hdom. apply count_thoughts_from; [done|lia|].
  rewrite <- size_dom, Hdom. pose proof (size_turn_keys n). lia.
Qed.

(** ** The loop keeps its trajectory contiguous and only appends *)

Section LoopInvariant.

Variable E : Env.
Variable sig : Signature.
Variable registry : list Tool.
Variable max_iters : nat.
Variable input : kwargs.

Lemma within_budget_enter (i : nat) (trajectory : gmap string value)
    (last : option string) :
  (i ≤ max_iters)%nat → contiguous trajectory i →
  within_budget max_iters (enter E sig max_iters i trajectory last).
Proof.
  intros Hi Hdom. unfold enter. case_decide; cbn.
  - by split.
  - exists i. split; [lia|exact Hdom].
Qed.

Lemma state_trajectory_enter (i : nat) (trajectory : gmap string value)
    (last : option string) :
  state_trajectory (enter E sig max_iters i trajectory last) = trajectory.
Proof. unfold enter. by case_decide. Qed.

(** The two ways an iteration ends. *)
Lemma turn_cases (i : nat) (trajectory : gmap string value) (w : World)
    (s1 : LoopState) (w1 : World) :
  turn E sig registry max_iters input i trajectory w = (Ok s1, w1) →
  (∃ thought name args observation,
     s1 = enter E sig max_iters (S i)
            (append_turn i thought name args observation trajectory)
            (Some observation))
  ∨ (∃ thought outputs,
       s1 = Terminated (finish sig trajectory thought outputs)).
Proof.
  unfold turn, bind. destruct (decide_next _ _ _ _ _ w) as [[d|e] w0]; [|done].
  destruct d as [thought name args|thought outputs].
  - destruct (observe _ _ _ _ w0) as [[observation|e] w2]; [|done].
    intros [= <- <-]. left. eauto.
  - intros [= <- <-]. right. eauto.
Qed.

Lemma turn_within_budget (i : nat) (trajectory : gmap string value)
    (w : World) (s1 : LoopState) (w1 : World) :
  (i < max_iters)%nat → contiguous trajectory i →
  turn E sig registry max_iters input i trajectory w = (Ok s1, w1) →
  within_budget max_iters s1 ∧ trajectory ⊆ state_trajectory s1.
Proof.
  intros Hi Hdom Hturn.
  destruct (turn_cases _ _ _ _ _ Hturn)
    as [(th & nm & args & obs & ->)|(th & outs & ->)].
  - split.
    + apply within_budget_enter; [lia|]. by apply contiguous_append.
    + rewrite state_trajectory_enter. by apply append_turn_extends.
  - split; [|done]. cbn. exists i. split; [lia|exact Hdom].
Qed.

Lemma steps_within_budget (s : LoopState) (w : World) (s' : LoopState)
    (w' : World) :
  steps E sig registry max_iters input s w s' w' →
  within_budget max_iters s →
  within_budget max_iters s' ∧ state_trajectory s ⊆ state_trajectory s'.
Proof.
  induction 1 as [s w|i trajectory last w s1 w1 s2 w2 Hturn Hsteps IH];
    intros Hinv.
  - by split.
  - destruct Hinv as [Hi Hdom].
    destruct (turn_within_budget _ _ _ _ _ Hi Hdom Hturn) as [Hinv1 Hsub1].
    destruct (IH Hinv1) as [Hinv2 Hsub2]. split; [exact Hinv2|].
    cbn. by etrans.
Qed.

(** With fuel for the iterations the budget still allows, [drive] ends
    where the step relation ends: the fuel is never what stops it. *)
Lemma drive_steps (fuel : nat) (s : LoopState) (w : World) (p : Prediction)
    (w' : World) :
  within_budget max_iters s →
  (∀ i trajectory last,
     s = AwaitingDecision i trajectory last → (max_iters ≤ fuel + i)%nat) →
  drive E sig registry max_iters input fuel s w = (Ok p, w') →
  steps E sig registry max_iters input s w (Terminated p) w'.
Proof.
  revert s w. induction fuel as [|fuel IH]; intros s w Hinv Hfuel Hdrive.
  - destruct s as [i trajectory last|p0].
    + destruct Hinv as [Hi _]. specialize (Hfuel _ _ _ eq_refl). lia.
    + cbn in Hdrive. injection Hdrive as <- <-. constructor.
  - destruct s as [i trajectory last|p0].
    + destruct Hinv as [Hi Hdom]. cbn [drive] in Hdrive. unfold bind in Hdrive.
      destruct (turn _ _ _ _ _ i trajectory w) as [[s1|e] w1] eqn:Hturn;
        [|done].
      econstructor; [exact Hturn|]. apply IH; [| |exact Hdrive].
      * eapply turn_within_budget; eauto.
      * intros j t l ->. specialize (Hfuel _ _ _ eq_refl).
        destruct (turn_cases _ _ _ _ _ Hturn)
          as [(th & nm & args & obs & Heq)|(th & outs & Heq)]; [|done].
        unfold enter in Heq. case_decide; [|done].
        injection Heq as -> _ _. lia.
    + cbn in Hdrive. injection Hdrive as <- <-. constructor.
Qed.

Lemma within_budget_start :
  within_budget max_iters (enter E sig max_iters 0 ∅ None).
Proof. apply within_budget_enter; [lia|apply contiguous_empty]. Qed.

Lemma run_steps (w : World) (p : Prediction) (w' : World) :
  run E sig registry max_iters input w = (Ok p, w') →
  steps E sig registry max_iters input
    (enter E sig max_iters 0 ∅ None) w (Terminated p) w'.
Proof.
  unfold run. apply drive_steps; [apply within_budget_start|].
  intros i trajectory last Heq. unfold enter in Heq.
  case_decide; [|done]. injection Heq as <- _ _. lia.
Qed.

End LoopInvariant.

(** C3. In every run of the loop, whatever the signature, the registry,
    the budget and the input: every state the run passes through holds a
    trajectory of [n <= max_iters] turns whose keys are exactly those of
    turns [0 .. n-1]; the trajectory of an earlier state is a sub-map of
    the trajectory of every later state, so a stored turn is never
    changed; and the prediction a run returns is such a state, on which
    the trace renderer counts exactly [n] turns. *)
Theorem trajectory_bounded_contiguous_append_only (E : Env) (sig : Signature)
    (registry : list Tool) (max_iters : nat) (input : kwargs) (w0 : World) :
  let start := enter E sig max_iters 0 ∅ None in
  (∀ s w,
     steps E sig registry max_iters input start w0 s w →
     (∃ n, (n ≤ max_iters)%nat ∧ contiguous (state_trajectory s) n)
     ∧ ∀ s' w',
         steps E sig registry max_iters input s w s' w' →
         state_trajectory s ⊆ state_trajectory s')
  ∧ (∀ p w',
       run E sig registry max_iters input w0 = (Ok p, w') →
       steps E sig registry max_iters input start w0 (Terminated p) w'
       ∧ ∃ n, (n ≤ max_iters)%nat ∧ contiguous (pred_trajectory p) n
              ∧ count_thoughts (size (pred_trajectory p))
                  (pred_trajectory p) 0 = n).
Proof.
  intros start.
  assert (∀ s, within_budget max_iters s →
               ∃ n, (n ≤ max_iters)%nat ∧ contiguous (state_trajectory s) n)
    as Hturns.
  { intros [i trajectory last|p]; cbn; [|done].
    intros [Hi Hdom]. exists i. split; [lia|done]. }
  split.
  - intros s w Hreach.
    destruct (steps_within_budget _ _ _ _ _ _ _ _ _ Hreach
                (within_budget_start E sig max_iters)) as [Hinv _].
    split; [by apply Hturns|].
    intros s' w' Hlater.
    by destruct (steps_within_budget _ _ _ _ _ _ _ _ _ Hlater Hinv).
  - intros p w' Hrun. apply run_steps in Hrun. split; [exact Hrun|].
    destruct (steps_within_budget _ _ _ _ _ _ _ _ _ Hrun
                (within_budget_start E sig max_iters)) as [(n & Hn & Hdom) _].
    exists n. repeat split; [done..|]. by apply count_thoughts_contiguous.
Qed.

(** ** Exhausting the budget *)

Lemma observe_total (E : Env) (registry : list Tool) (name : string)
    (args : kwargs) (w : World) :
  ∃ observation w', observe E registry name args w = (Ok observation, w').
Proof.
  unfold observe. destruct (resolve registry name) as [tool|]; [|by eexists _, _].
  destruct (args_valid _ _); [|by eexists _, _].
  unfold try_except, bind, ret.
  destruct (tool_call tool args w) as [[v|e] w']; by eexists _, _.
Qed.

Lemma lookup_observation_append (i : nat) (thought name : string)
    (args : kwargs) (observation : string) (trajectory : gmap string value) :
  append_turn i thought name args observation trajectory
    !! turn_key "observation" i = Some (VStr observation).
Proof. unfold append_turn. apply lookup_insert_eq. Qed.

Lemma turn_unfold (E : Env) (sig : Signature) (registry : list Tool)
    (max_iters : nat) (input : kwargs) (i : nat)
    (trajectory : gmap string value) (w : World) :
  turn E sig registry max_iters input i trajectory w
  = match lm_decide E
            {| ctx_signature := sig;
               ctx_tools := map tool_descriptor registry;
               ctx_trajectory := trajectory;
               ctx_input := input |} (tick w) with
    | Ok (ToolCall thought name args) =>
        match observe E registry name args (ticked w) with
        | (Ok observation, w') =>
            (Ok (enter E sig max_iters (S i)
                   (append_turn i thought name args observation trajectory)
                   (Some observation)), w')
        | (Raise e, w') => (Raise e, w')
        end
    | Ok (Finish thought outputs) =>
        (Ok (Terminated (finish sig trajectory thought outputs)), ticked w)
    | Raise e => (Raise e, ticked w)
    end.
Proof.
  cbv [turn bind decide_next consult lift ret].
  destruct (lm_decide E _ (tick w)) as [[thought name args|thought outputs]|e];
    reflexivity.
Qed.

Lemma drive_exhausts (E : Env) (sig : Signature) (registry : list Tool)
    (max_iters : nat) (input : kwargs) (fuel i : nat)
    (trajectory : gmap string value) (last : option string) (w : World) :
  always_calls E → (i < max_iters)%nat → (max_iters ≤ fuel + i)%nat →
  contiguous trajectory i →
  ∃ p w' observation,
    drive E sig registry max_iters input fuel
      (AwaitingDecision i trajectory last) w = (Ok p, w')
    ∧ pred_outcome p = BudgetExceeded
    ∧ contiguous (pred_trajectory p) max_iters
    ∧ pred_trajectory p !! turn_key "observation" (max_iters - 1)
      = Some (VStr observation)
    ∧ pred_outputs p
      = fill_outputs sig (lm_synthesize E sig (Some observation)).
Proof.
  intros Hcalls. revert i trajectory last w.
  induction fuel as [|fuel IH]; intros i trajectory last w Hi Hfuel Hdom;
    [lia|].
  cbn [drive]. unfold bind. rewrite turn_unfold.
  match goal with |- context [lm_decide E ?c ?k] =>
    pose proof (Hcalls c k) as Hcall; destruct (lm_decide E c k) as [d|e]
  end; [|done].
  destruct d as [thought name args|]; [|done]. clear Hcall.
  destruct (observe_total E registry name args (ticked w)) as (obs & w1 & ->).
  unfold enter. case_decide as Hnext.
  - apply IH; [lia|lia|by apply contiguous_append].
  - assert (S i = max_iters) as Hlast by lia.
    destruct fuel; cbn [drive ret].
    all: eexists _, _, obs; split; [reflexivity|]; cbn.
    all: repeat split.
    all: try (rewrite <- Hlast; by apply contiguous_append).
    all: replace (max_iters - 1)%nat with i by lia.
    all: apply lookup_observation_append.
Qed.

(** C5. With a capability that always asks for a tool and never
    finishes, a loop with [max_iters = 3] returns instead of raising: its
    prediction is flagged [BudgetExceeded], its trajectory holds exactly
    turns 0, 1 and 2, and its output fields are the declared ones, filled
    from what is synthesized out of the last observation.  The four
    specialists are such loops. *)
Theorem budget_exhaustion_after_three_turns (E : Env) (sig : Signature)
    (registry : list Tool) (input : kwargs) (w : World) :
  always_calls E →
  (∃ p w' observation,
     run E sig registry 3 input w = (Ok p, w')
     ∧ pred_outcome p = BudgetExceeded
     ∧ contiguous (pred_trajectory p) 3
     ∧ pred_trajectory p !! turn_key "observation" 2 = Some (VStr observation)
     ∧ pred_outputs p
       = fill_outputs sig (lm_synthesize E sig (Some observation)))
  ∧ Forall (fun agent => rp_max_iters agent = 3%nat)
      [MathAgent; TextAgent; TimeAgent E; WeatherAgent E].
Proof.
  intros Hcalls. split; [|by repeat constructor].
  unfold run, enter. case_decide; [|lia].
  apply (drive_exhausts E sig registry 3 input 3 0 ∅ None w);
    [done|lia|lia|apply contiguous_empty].
Qed.

Lemma budget_exhaustion_witness :
  ∃ p w' observation,
    run (example_env keeps_adding) MathAgentSignature math_tools 3
      [("math_query", VStr "what is 1 plus 2")] initial_world = (Ok p, w')
    ∧ pred_outcome p = BudgetExceeded
    ∧ contiguous (pred_trajectory p) 3
    ∧ pred_trajectory p !! turn_key "observation" 2 = Some (VStr observation)
    ∧ pred_outputs p
      = fill_outputs MathAgentSignature
          (lm_synthesize (example_env keeps_adding) MathAgentSignature
             (Some observation)).
Proof.
  refine (proj1 (budget_exhaustion_after_three_turns
                   (example_env keeps_adding) MathAgentSignature math_tools
                   [("math_query", VStr "what is 1 plus 2")] initial_world _)).
  intros ctx k. reflexivity.
Defined.

(** ** A tool that fails *)

Lemma observe_failure (E : Env) (registry : list Tool) (name : string)
    (args : kwargs) (tool : Tool) (e : exn) (w w' : World) :
  resolve registry name = Some tool →
  args_valid (td_params (tool_descriptor tool)) args = true →
  tool_call tool args w = (Raise e, w') →
  observe E registry name args w
  = (Ok (error_observation (ToolExecutionError name e)), w').
Proof.
  intros Hres Hvalid Hcall. unfold observe. rewrite Hres, Hvalid.
  unfold try_except, bind. by rewrite Hcall.
Qed.

Lemma decide_next_unfold (E : Env) (sig : Signature) (registry : list Tool)
    (input : kwargs) (trajectory : gmap string value) (w : World) :
  decide_next E sig registry input trajectory w
  = (lm_decide E
       {| ctx_signature := sig;
          ctx_tools := map tool_descriptor registry;
          ctx_trajectory := trajectory;
          ctx_input := input |} (tick w), ticked w).
Proof.
  cbv [decide_next bind consult lift]. by destruct (lm_decide E _ _).
Qed.

(** C4, as the loop has it.  A tool that raises during execution does
    not end the run with its exception: the failure becomes the
    observation string of the current turn, which is appended like any
    other.  A further decision is awaited when the budget allows turn
    [i + 1]; on the last turn of the budget the run ends with the
    [BudgetExceeded] prediction.  A weather tool meets a dead network
    before that: it returns the failure as its own result. *)
Theorem tool_failure_becomes_observation (E : Env) (sig : Signature)
    (registry : list Tool) (max_iters : nat) (input : kwargs) (i : nat)
    (trajectory : gmap string value) (w w1 w2 : World)
    (thought name : string) (args : kwargs) (tool : Tool) (e : exn) :
  decide_next E sig registry input trajectory w
    = (Ok (ToolCall thought name args), w1) →
  resolve registry name = Some tool →
  args_valid (td_params (tool_descriptor tool)) args = true →
  tool_call tool args w1 = (Raise e, w2) →
  let failure := error_observation (ToolExecutionError name e) in
  let trajectory' := append_turn i thought name args failure trajectory in
  trajectory' !! turn_key "observation" i = Some (VStr failure)
  ∧ turn E sig registry max_iters input i trajectory w
    = (Ok (if decide (S i < max_iters)%nat
           then AwaitingDecision (S i) trajectory' (Some failure)
           else Terminated (budget_exceeded E sig trajectory' (Some failure))),
       w2)
  ∧ (∀ city_name w3 err,
       http_get E (geocoding_url city_name) (tick w3) = Raise err →
       get_weather_by_city E city_name w3
       = (Ok ("Error fetching weather: " ++ exn_msg err), ticked w3)).
Proof.
  intros Hdecide Hres Hvalid Hcall failure trajectory'.
  split; [apply lookup_observation_append|]. split.
  - rewrite decide_next_unfold in Hdecide. injection Hdecide as Hlm <-.
    rewrite turn_unfold, Hlm.
    by rewrite (observe_failure E registry name args tool e _ w2).
  - intros city_name w3 err Hdown.
    cbv [get_weather_by_city try_except bind requests_get consult lift ret].
    by rewrite Hdown.
Qed.

Lemma tool_failure_witness :
  let E := example_env keeps_overflowing in
  let failure :=
    "ToolExecutionError in add_numbers: int too large to convert to float" in
  ∃ trajectory',
    trajectory' !! turn_key "observation" 0 = Some (VStr failure)
    ∧ turn E MathAgentSignature math_tools 3 [("math_query", VStr "add")]
        0 ∅ initial_world
      = (Ok (AwaitingDecision 1 trajectory' (Some failure)),
         ticked initial_world).
Proof.
  intros E failure. eexists.
  refine (let H := tool_failure_becomes_observation E MathAgentSignature
            math_tools 3 [("math_query", VStr "add")] 0 ∅ initial_world
            (ticked initial_world) (ticked initial_world)
            "I should add the numbers" "add_numbers"
            [("a", VNum (PyInt (10 ^ 400))); ("b", VNum (PyFloat float_1_5))]
            add_numbers_tool OverflowError _ _ _ _ in _).
  { destruct H as (Hobs & Hturn & _). split; [exact Hobs|exact Hturn]. }
  Unshelve.
  - reflexivity.
  - reflexivity.
  - reflexivity.
  - vm_compute. reflexivity.
Defined.

(** C4, as stated, fails on the last turn of a budget: after two failed
    additions the third failure of [MathAgent]'s loop is followed by the
    end of the run, not by a further decision. *)
Lemma failure_on_last_turn_ends_run :
  ¬ failure_then_further_decision (example_env keeps_overflowing)
      MathAgentSignature math_tools 3 [("math_query", VStr "add")]
      initial_world.
Proof.
  intros Hclaim.
  set (E := example_env keeps_overflowing).
  set (input := [("math_query", VStr "add")]).
  assert (∃ trajectory last w,
            steps E MathAgentSignature math_tools 3 input
              (enter E MathAgentSignature 3 0 ∅ None) initial_world
              (AwaitingDecision 2 trajectory last) w
            ∧ ∃ p w', turn E MathAgentSignature math_tools 3 input 2
                        trajectory w = (Ok (Terminated p), w'))
    as (trajectory & last & w & Hreach & p & w' & Hturn).
  { eexists _, _, _. split.
    - eapply steps_turn; [vm_compute; reflexivity|].
      eapply steps_turn; [vm_compute; reflexivity|].
      apply steps_here.
    - eexists _, _. vm_compute. reflexivity. }
  destruct (Hclaim 2%nat trajectory last w "I should add the numbers"
              "add_numbers"
              [("a", VNum (PyInt (10 ^ 400))); ("b", VNum (PyFloat float_1_5))]
              (ticked w) add_numbers_tool OverflowError (ticked w) Hreach)
    as (t' & l' & Hturn' & _).
  - rewrite decide_next_unfold. reflexivity.
  - reflexivity.
  - reflexivity.
  - vm_compute. reflexivity.
  - pose proof (eq_trans (eq_sym Hturn) Hturn') as Heq. discriminate Heq.
Qed.

(** ** Results that do not depend on the world *)

Lemma insensitive_ret {A} (a : A) : insensitive (ret a).
Proof. by intros w w'. Qed.

Lemma insensitive_raise {A} (e : exn) : insensitive (@raise A e).
Proof. by intros w w'. Qed.

Lemma insensitive_lift {A} (r : result A) : insensitive (lift r).
Proof. by intros w w'. Qed.

Lemma insensitive_print (s : string) : insensitive (print s).
Proof. by intros w w'. Qed.

Lemma insensitive_consult {A} (oracle : nat → A) :
  (∀ k k', oracle k = oracle k') → insensitive (consult oracle).
Proof. intros Hconst w w'. cbn. by rewrite (Hconst (tick w) (tick w')). Qed.

Lemma insensitive_bind {A B} (m : M A) (k : A → M B) :
  insensitive m → (∀ a, insensitive (k a)) → insensitive (x <- m ;; k x).
Proof.
  intros Hm Hk w w'. unfold bind. specialize (Hm w w').
  destruct (m w) as [[a|e] w1], (m w') as [[a'|e'] w1']; cbn in Hm;
    try discriminate; injection Hm as <-; [apply Hk|reflexivity].
Qed.

Lemma insensitive_try_except {A} (body : M A) (handler : exn → M A) :
  insensitive body → (∀ e, insensitive (handler e)) →
  insensitive (try_except body handler).
Proof.
  intros Hb Hh w w'. unfold try_except. specialize (Hb w w').
  destruct (body w) as [[a|e] w1], (body w') as [[a'|e'] w1']; cbn in Hb;
    try discriminate; injection Hb as <-; [reflexivity|apply Hh].
Qed.

Create HintDb insens.
#[local] Hint Resolve insensitive_ret insensitive_raise insensitive_lift
  insensitive_print : insens.

Ltac insens :=
  repeat first
    [ progress auto with insens
    | apply insensitive_bind; [|intros ?]
    | apply insensitive_try_except; [|intros ?]
    | match goal with
      | |- insensitive (match ?x with _ => _ end) => destruct x
      | |- insensitive (if ?b then _ else _) => destruct b
      end ].

Lemma insensitive_trace_agent (E : Env) {Args R : Type} `{IsInstance R}
    (agent_name : string) (func : Args → kwargs → M R)
    (args : Args) (kw : kwargs) :
  insensitive (func args kw) →
  insensitive (trace_agent E agent_name func args kw).
Proof.
  intros Hf w w'. rewrite !trace_agent_fst. apply Hf.
Qed.

Section Insensitive.

Variable E : Env.
Hypothesis Hlm : deterministic_capability E.

Lemma resolve_elem_of (registry : list Tool) (name : string) (tool : Tool) :
  resolve registry name = Some tool → tool ∈ registry.
Proof.
  unfold resolve. intros Hfind. apply find_some in Hfind as [Hin _].
  by apply list_elem_of_In.
Qed.

Lemma insensitive_observe (registry : list Tool) (name : string)
    (args : kwargs) :
  Forall pure_tool registry → insensitive (observe E registry name args).
Proof.
  intros Hpure. unfold observe.
  destruct (resolve registry name) as [tool|] eqn:Hres; [|insens].
  assert (pure_tool tool) as Htool.
  { eapply Forall_forall; [exact Hpure|]. by eapply resolve_elem_of. }
  destruct (args_valid _ _); [|insens].
  apply insensitive_try_except; [|insens].
  apply insensitive_bind; [apply Htool|insens].
Qed.

Lemma insensitive_turn (sig : Signature) (registry : list Tool)
    (max_iters : nat) (input : kwargs) (i : nat)
    (trajectory : gmap string value) :
  Forall pure_tool registry →
  insensitive (turn E sig registry max_iters input i trajectory).
Proof.
  intros Hpure. unfold turn, decide_next.
  apply insensitive_bind.
  - apply insensitive_bind; [|insens].
    apply insensitive_consult. intros k k'. apply Hlm.
  - intros [thought name args|thought outputs]; [|insens].
    apply insensitive_bind; [by apply insensitive_observe|insens].
Qed.

Lemma insensitive_drive (sig : Signature) (registry : list Tool)
    (max_iters : nat) (input : kwargs) (fuel : nat) (s : LoopState) :
  Forall pure_tool registry →
  insensitive (drive E sig registry max_iters input fuel s).
Proof.
  intros Hpure. revert s. induction fuel as [|fuel IH]; intros s.
  - destruct s; cbn [drive]; insens.
  - destruct s as [i trajectory last|p]; cbn [drive]; [|insens].
    apply insensitive_bind; [by apply insensitive_turn|apply IH].
Qed.

Lemma insensitive_react_call (program : ReAct) (input : kwargs) :
  Forall pure_tool (rp_tools program) →
  insensitive (react_call E program input).
Proof. intros Hpure. unfold react_call, run. by apply insensitive_drive. Qed.

Lemma insensitive_forward (agent_name : string) (program : ReAct)
    (param : string) (kw : kwargs) :
  Forall pure_tool (rp_tools program) →
  insensitive
    (trace_agent E agent_name (forward_body E program param) tt kw).
Proof.
  intros Hpure. apply insensitive_trace_agent. unfold forward_body.
  destruct kw as [|[k q] [|? ?]]; [insens| |insens].
  destruct (String.eqb k param); [|insens].
  by apply insensitive_react_call.
Qed.

Lemma pure_call_num2 (name : string) (f : num → num → result num)
    (args : kwargs) :
  insensitive (call_num2 name f args).
Proof. unfold call_num2. insens. Qed.

Lemma pure_call_str1 (name param : string) (f : string → M value)
    (args : kwargs) :
  (∀ s, insensitive (f s)) → insensitive (call_str1 name param f args).
Proof. intros Hf. unfold call_str1. insens. Qed.

Lemma pure_call_0 (name : string) (f : M string) (args : kwargs) :
  insensitive f → insensitive (call_0 name f args).
Proof. intros Hf. unfold call_0. destruct args; [|insens]. insens. Qed.

Lemma pure_math_tools : Forall pure_tool math_tools.
Proof. repeat constructor; intros args; apply pure_call_num2. Qed.

Lemma pure_text_tools : Forall pure_tool text_tools.
Proof.
  repeat constructor; intros args; apply pure_call_str1; intros; insens.
Qed.

Hypothesis Hstationary : stationary_collaborators E.

Lemma pure_time_tools : Forall pure_tool (time_tools E).
Proof.
  repeat constructor; intros args; apply pure_call_0;
    apply insensitive_consult; intros; apply Hstationary.
Qed.

Lemma insensitive_requests_get (url : string) :
  insensitive (requests_get E url).
Proof.
  unfold requests_get. apply insensitive_bind; [|insens].
  apply insensitive_consult. intros. apply Hstationary.
Qed.

Lemma insensitive_get_weather_by_city (city_name : string) :
  insensitive (get_weather_by_city E city_name).
Proof.
  unfold get_weather_by_city.
  apply insensitive_try_except; [|insens].
  repeat first
    [ apply insensitive_requests_get
    | progress auto with insens
    | apply insensitive_bind; [|intros ?]
    | match goal with
      | |- insensitive (if ?b then _ else _) => destruct b
      end ].
Qed.

Lemma insensitive_fetch_temps (cities : list string)
    (temps : gmap string value) :
  insensitive (fetch_temps E cities temps).
Proof.
  revert temps. induction cities as [|city rest IH]; intros temps;
    cbn [fetch_temps]; [insens|].
  repeat first
    [ apply insensitive_requests_get
    | apply IH
    | progress auto with insens
    | apply insensitive_bind; [|intros ?]
    | match goal with
      | |- insensitive (if ?b then _ else _) => destruct b
      end ].
Qed.

Lemma insensitive_compare_city_temperatures (city1 city2 : string) :
  insensitive (compare_city_temperatures E city1 city2).
Proof.
  unfold compare_city_temperatures.
  apply insensitive_try_except; [|insens].
  apply insensitive_bind; [apply insensitive_fetch_temps|].
  intros [s|temps]; insens.
Qed.

Lemma pure_weather_tools : Forall pure_tool (weather_tools E).
Proof.
  repeat constructor; intros args.
  - apply pure_call_str1. intros s.
    apply insensitive_bind; [apply insensitive_get_weather_by_city|insens].
  - cbn [tool_call compare_city_temperatures_tool].
    repeat case_match; try apply insensitive_raise.
    apply insensitive_bind;
      [apply insensitive_compare_city_temperatures|insens].
Qed.

Lemma insensitive_adapter (agent_name : string) (program : ReAct)
    (param field q : string) :
  Forall pure_tool (rp_tools program) →
  insensitive
    (prediction <- trace_agent E agent_name (forward_body E program param)
                     tt [(param, VStr q)] ;;
     lift (getattr prediction field)).
Proof.
  intros Hpure. apply insensitive_bind; [|insens].
  by apply insensitive_forward.
Qed.

Lemma pure_main_tools : Forall pure_tool (rp_tools (MainAgent E)).
Proof.
  repeat constructor; intros args; apply pure_call_str1; intros q;
    apply insensitive_adapter;
    auto using pure_math_tools, pure_text_tools, pure_time_tools,
      pure_weather_tools.
Qed.

End Insensitive.

Lemma insensitive_identical_twice {A} (m : M A) :
  insensitive m → identical_twice m.
Proof.
  intros Hm w. unfold twice. specialize (Hm w (snd (m w))).
  by destruct (m w) as [r1 w1].
Qed.

(** C7, as the program has it.  With a capability whose answer depends
    on the context alone, two invocations in a row of [MathAgent] or of
    [TextAgent] return the same prediction, trajectory included, from
    any world: each invocation starts from the empty trajectory and the
    tools compute from their arguments.  The same holds of [TimeAgent],
    of [WeatherAgent] and of the coordinator when the clock and the
    network answer the same both times. *)
Theorem invoking_twice_same_prediction (E : Env) :
  deterministic_capability E →
  (∀ kw, identical_twice (MathAgent_forward E tt kw))
  ∧ (∀ kw, identical_twice (TextAgent_forward E tt kw))
  ∧ (stationary_collaborators E →
     (∀ kw, identical_twice (TimeAgent_forward E tt kw))
     ∧ (∀ kw, identical_twice (WeatherAgent_forward E tt kw))
     ∧ (∀ user_query, identical_twice (MainAgent_forward E user_query))).
Proof.
  intros Hlm. repeat split; intros; apply insensitive_identical_twice.
  - apply insensitive_forward; [done|apply pure_math_tools].
  - apply insensitive_forward; [done|apply pure_text_tools].
  - apply insensitive_forward; [done|by apply pure_time_tools].
  - apply insensitive_forward; [done|by apply pure_weather_tools].
  - apply insensitive_react_call; [done|by apply pure_main_tools].
Qed.

Lemma invoking_twice_witness :
  let m := MathAgent_forward (example_env keeps_adding) tt
             [("math_query", VStr "what is 1 plus 2")] in
  fst (twice m initial_world) = snd (twice m initial_world).
Proof.
  intros m.
  refine (proj1 (invoking_twice_same_prediction (example_env keeps_adding) _)
            _ initial_world).
  intros ctx k k'. reflexivity.
Defined.

Example invoking_twice_frozen_clock :
  let m := TimeAgent_forward (frozen_env asks_usa_time) tt
             [("time_query", VStr "what time is it in the USA")] in
  fst (twice m initial_world) = snd (twice m initial_world).
Proof.
  intros m.
  assert (deterministic_capability (frozen_env asks_usa_time)) as Hlm
    by (intros ctx k k'; reflexivity).
  assert (stationary_collaborators (frozen_env asks_usa_time)) as Hst
    by (split; intros; reflexivity).
  apply insensitive_identical_twice, insensitive_forward; [done|].
  by apply pure_time_tools.
Qed.

(** C7, as stated, fails for [TimeAgent]: with a deterministic stub
    that asks for the time in the USA and finishes with what it
    observed, two invocations in a row read two different seconds off
    the clock, and the observations of their trajectories differ. *)
Lemma time_agent_twice_differs :
  let E := example_env asks_usa_time in
  let m := TimeAgent_forward E tt
             [("time_query", VStr "what time is it in the USA")] in
  deterministic_capability E
  ∧ ¬ same_trajectory (fst (twice m initial_world))
        (snd (twice m initial_world)).
Proof.
  intros E m. split; [intros ctx k k'; reflexivity|].
  assert (∃ p1 p2,
            twice m initial_world = (Ok p1, Ok p2)
            ∧ pred_trajectory p1 !! turn_key "observation" 0
              = Some (VStr "2025-01-01 12:00:02 EST")
            ∧ pred_trajectory p2 !! turn_key "observation" 0
              = Some (VStr "2025-01-01 12:00:07 EST"))
    as (p1 & p2 & -> & Hobs1 & Hobs2).
  { eexists _, _. split; [vm_compute; reflexivity|].
    split; vm_compute; reflexivity. }
  cbn. intros Heq. rewrite Heq in Hobs1. rewrite Hobs1 in Hobs2.
  discriminate.
Qed.

(** ** What a run returns carries every declared output field *)

Lemma drive_outputs (E : Env) (sig : Signature) (registry : list Tool)
    (max_iters : nat) (input : kwargs) (fuel : nat) (s : LoopState)
    (w : World) (p : Prediction) (w' : World) :
  (∀ p0, s = Terminated p0 →
         ∃ outputs, pred_outputs p0 = fill_outputs sig outputs) →
  drive E sig registry max_iters input fuel s w = (Ok p, w') →
  ∃ outputs, pred_outputs p = fill_outputs sig outputs.
Proof.
  revert s w. induction fuel as [|fuel IH]; intros s w Hs Hdrive.
  - destruct s as [i trajectory last|p0]; cbn in Hdrive;
      injection Hdrive as <- <-; [by eexists|by apply Hs].
  - destruct s as [i trajectory last|p0]; cbn [drive] in Hdrive.
    + unfold bind in Hdrive.
      destruct (turn _ _ _ _ _ i trajectory w) as [[s1|e] w1] eqn:Hturn;
        [|done].
      eapply IH; [|exact Hdrive].
      intros p0 ->.
      destruct (turn_cases _ _ _ _ _ _ _ _ _ _ Hturn)
        as [(th & nm & args & obs & Heq)|(th & outs & Heq)].
      * unfold enter in Heq. case_decide; [done|].
        injection Heq as ->. by eexists.
      * injection Heq as ->. by eexists.
    + injection Hdrive as <- <-. by apply Hs.
Qed.

Lemma run_outputs (E : Env) (sig : Signature) (registry : list Tool)
    (max_iters : nat) (input : kwargs) (w : World) (p : Prediction)
    (w' : World) :
  run E sig registry max_iters input w = (Ok p, w') →
  ∃ outputs, pred_outputs p = fill_outputs sig outputs.
Proof.
  unfold run. apply drive_outputs. intros p0 Heq.
  unfold enter in Heq. case_decide; [done|]. injection Heq as <-. by eexists.
Qed.

(** A signature with one [str] output yields exactly that field, as a
    string. *)
Lemma fill_outputs_signature1 (doc in_name in_desc out_name out_desc : string)
    (outputs : kwargs) :
  ∃ s, fill_outputs (signature1 doc in_name in_desc out_name out_desc) outputs
       = [(out_name, VStr s)].
Proof.
  unfold fill_outputs, signature1, field_ok. cbn.
  destruct (assoc out_name outputs) as [[| | |s| |]|]; cbn; by eexists.
Qed.

Lemma getattr_single (p : Prediction) (name : string) (v : value) :
  pred_outputs p = [(name, v)] → getattr p name = Ok v.
Proof.
  intros Hout. unfold getattr, assoc. rewrite Hout. cbn.
  by rewrite String.eqb_refl.
Qed.

(** ** The adapters and the coordinator *)

Lemma assoc_single (k : string) (v : value) : assoc k [(k, v)] = Some v.
Proof. unfold assoc. cbn. by rewrite String.eqb_refl. Qed.

Lemma args_valid_str1 (param q : string) :
  args_valid [(param, TString)] [(param, VStr q)] = true.
Proof.
  unfold args_valid. cbn [forallb existsb fst snd].
  by rewrite assoc_single, String.eqb_refl.
Qed.

Lemma call_str1_bound (name param : string) (f : string → M value)
    (q : string) :
  call_str1 name param f [(param, VStr q)] = f q.
Proof. unfold call_str1. by rewrite assoc_single. Qed.

Lemma adapter_generic (E : Env) (agent_name : string) (program : ReAct)
    (param field tool desc : string) (registry : list Tool) (q : string)
    (w : World) :
  (∃ doc a b d, rp_signature program = signature1 doc a b field d) →
  let kw := [(param, VStr q)] in
  let adapter := fun q =>
    (prediction <- trace_agent E agent_name (forward_body E program param)
                     tt [(param, VStr q)] ;;
     lift (getattr prediction field)) in
  resolve registry tool = Some (adapter_tool tool desc param adapter) →
  match fst (react_call E program kw (traced_entry E agent_name kw w)) with
  | Ok p =>
      ∃ s, getattr p field = Ok (VStr s)
           ∧ fst (adapter q w) = Ok (VStr s)
           ∧ fst (observe E registry tool kw w) = Ok s
  | Raise e =>
      fst (adapter q w) = Raise e
      ∧ fst (observe E registry tool kw w)
        = Ok (error_observation (ToolExecutionError tool e))
  end.
Proof.
  intros (doc & a & b & d & Hsig) kw adapter Hres.
  assert (fst (observe E registry tool kw w)
          = match fst (adapter q w) with
            | Ok v => Ok (str_of E v)
            | Raise e => Ok (error_observation (ToolExecutionError tool e))
            end) as Hobs.
  { unfold observe. rewrite Hres.
    change (td_params (tool_descriptor (adapter_tool tool desc param adapter)))
      with [(param, TString)].
    change (tool_call (adapter_tool tool desc param adapter))
      with (call_str1 tool param adapter).
    unfold kw. rewrite args_valid_str1, call_str1_bound.
    unfold try_except, bind.
    by destruct (adapter q w) as [[v|e] w']. }
  rewrite Hobs. clear Hobs.
  assert (fst (adapter q w)
          = match fst (react_call E program kw
                         (traced_entry E agent_name kw w)) with
            | Ok p => getattr p field
            | Raise e => Raise e
            end) as Hadapter.
  { unfold adapter, bind. fold kw.
    destruct (trace_agent_result E agent_name (forward_body E program param)
                tt kw w) as [out ->].
    unfold forward_body at 1, kw at 1. rewrite String.eqb_refl. fold kw.
    by destruct (react_call E program kw _) as [[p|e] w']. }
  rewrite Hadapter. clear Hadapter.
  destruct (react_call E program kw _) as [[p|e] w'] eqn:Hcall;
    cbn [fst]; [|done].
  apply run_outputs in Hcall as [outputs Hout]. rewrite Hsig in Hout.
  destruct (fill_outputs_signature1 doc a b field d outputs) as [s Hs].
  rewrite Hs in Hout. exists s.
  by rewrite (getattr_single p field (VStr s) Hout).
Qed.

(** C1. Each of the four adapters runs its specialist's whole loop on
    the query, inside the trace, and returns exactly the value of the
    specialist's one declared output field, which is a string.  The
    coordinator that calls the adapter as a tool observes that string and
    nothing else of the specialist's run; should the specialist's loop
    raise, the adapter raises the same and the coordinator observes the
    failure as a string. *)
Theorem adapters_return_primary_output (E : Env) :
  adapter_contract E "MathAgent" MathAgent "math_query" "math_result"
    "math_calculator" (math_calculator E)
  ∧ adapter_contract E "TextAgent" TextAgent "text_query" "text_result"
      "text_processor" (text_processor E)
  ∧ adapter_contract E "TimeAgent" (TimeAgent E) "time_query" "time_result"
      "time_checker" (time_checker E)
  ∧ adapter_contract E "WeatherAgent" (WeatherAgent E) "weather_query"
      "weather_result" "weather_checker" (weather_checker E).
Proof.
  repeat split; intros q w;
    (eapply (adapter_generic E); [by eexists _, _, _, _|reflexivity]).
Qed.

Lemma main_agent_turns (E : Env) (user_query : string) (w : World)
    (p : Prediction) (w' : World) :
  MainAgent_forward E user_query w = (Ok p, w') →
  ∃ n, (n ≤ 5)%nat ∧ contiguous (pred_trajectory p) n.
Proof.
  unfold MainAgent_forward, react_call. intros Hrun.
  apply run_steps in Hrun.
  by destruct (steps_within_budget _ _ _ _ _ _ _ _ _ Hrun
                 (within_budget_start E _ _)) as [Hinv _].
Qed.

(** *** Counting the calls of traced agents *)

Lemma started_count_app (a b : list string) :
  started_count (a ++ b) = (started_count a + started_count b)%nat.
Proof. unfold started_count. by rewrite List.filter_app, length_app. Qed.

Lemma announces_weaken {A} (lo hi lo' hi' : nat) (m : M A) :
  (lo' ≤ lo)%nat → (hi ≤ hi')%nat → announces lo hi m → announces lo' hi' m.
Proof.
  intros Hlo Hhi Hm w. destruct (Hm w) as (out & Hout & Hcount).
  exists out. split; [done|lia].
Qed.

Lemma announces_unchanged {A} (m : M A) :
  (∀ w, stdout (snd (m w)) = stdout w) → announces 0 0 m.
Proof.
  intros Hm w. exists []. rewrite app_nil_r. split; [apply Hm|cbn; lia].
Qed.

Lemma announces_ret {A} (a : A) : announces 0 0 (ret a).
Proof. by apply announces_unchanged. Qed.

Lemma announces_raise {A} (e : exn) : announces 0 0 (@raise A e).
Proof. by apply announces_unchanged. Qed.

Lemma announces_lift {A} (r : result A) : announces 0 0 (lift r).
Proof. by apply announces_unchanged. Qed.

Lemma announces_consult {A} (oracle : nat → A) : announces 0 0 (consult oracle).
Proof. by apply announces_unchanged. Qed.

Lemma announces_print (s : string) :
  announces (started_count [s]) (started_count [s]) (print s).
Proof. intros w. exists [s]. split; [reflexivity|lia]. Qed.

Lemma announces_print_other (s : string) :
  is_started_line s = false → announces 0 0 (print s).
Proof.
  intros Hs. pose proof (announces_print s) as Hp.
  unfold started_count in Hp. cbn [List.filter] in Hp. by rewrite Hs in Hp.
Qed.

Lemma announces_print_started (s : string) :
  is_started_line s = true → announces 1 1 (print s).
Proof.
  intros Hs. pose proof (announces_print s) as Hp.
  unfold started_count in Hp. cbn [List.filter] in Hp. by rewrite Hs in Hp.
Qed.

Lemma announces_bind {A B} (lo hi hi' : nat) (m : M A) (k : A → M B) :
  announces lo hi m → (∀ a, announces 0 hi' (k a)) →
  announces lo (hi + hi') (x <- m ;; k x).
Proof.
  intros Hm Hk w. unfold bind. destruct (Hm w) as (out & Hout & Hcount).
  destruct (m w) as [[a|e] w1]; cbn [snd] in *.
  - destruct (Hk a w1) as (out' & Hout' & Hcount').
    exists (out ++ out')%list. rewrite Hout', Hout, app_assoc.
    split; [done|]. rewrite started_count_app. lia.
  - exists out. split; [done|lia].
Qed.

Lemma announces_bind0 {A B} (m : M A) (k : A → M B) :
  announces 0 0 m → (∀ a, announces 0 0 (k a)) →
  announces 0 0 (x <- m ;; k x).
Proof. intros Hm Hk. by apply (announces_bind 0 0 0). Qed.

Lemma announces_try_except {A} (lo hi hi' : nat) (body : M A)
    (handler : exn → M A) :
  announces lo hi body → (∀ e, announces 0 hi' (handler e)) →
  announces lo (hi + hi') (try_except body handler).
Proof.
  intros Hb Hh w. unfold try_except. destruct (Hb w) as (out & Hout & Hcount).
  destruct (body w) as [[a|e] w1]; cbn [snd] in *.
  - exists out. split; [done|lia].
  - destruct (Hh e w1) as (out' & Hout' & Hcount').
    exists (out ++ out')%list. rewrite Hout', Hout, app_assoc.
    split; [done|]. rewrite started_count_app. lia.
Qed.

Lemma announces_try_except0 {A} (body : M A) (handler : exn → M A) :
  announces 0 0 body → (∀ e, announces 0 0 (handler e)) →
  announces 0 0 (try_except body handler).
Proof. intros Hb Hh. by apply (announces_try_except 0 0 0). Qed.

Lemma announces_for_each {A} (l : list A) (body : A → M unit) :
  (∀ x, announces 0 0 (body x)) → announces 0 0 (for_each l body).
Proof.
  intros Hbody. induction l as [|x l IH]; cbn [for_each].
  - apply announces_ret.
  - by apply announces_bind0.
Qed.

Create HintDb quiet.
#[local] Hint Resolve announces_ret announces_raise announces_lift
  announces_consult : quiet.

(** Computations that call no traced agent. *)
Ltac quiet :=
  repeat first
    [ progress auto with quiet
    | apply announces_print_other; reflexivity
    | apply announces_bind0; [|intros ?]
    | apply announces_try_except0; [|intros ?]
    | apply announces_for_each; intros ?
    | match goal with
      | |- announces 0 0 (match ?x with _ => _ end) => destruct x
      | |- announces 0 0 (if ?b then _ else _) => destruct b
      end ].

Lemma announces_print_if_prediction (E : Env) {R : Type} `{IsInstance R}
    (result : R) :
  announces 0 0 (print_if_prediction E result).
Proof.
  unfold print_if_prediction. destruct (as_prediction result) as [p|];
    [|quiet].
  apply announces_bind0; [|intros _].
  - unfold print_react_trajectory. case_decide; [quiet|].
    apply announces_for_each. intros i. unfold print_turn. quiet.
  - unfold print_final_answer. quiet.
Qed.

(** A traced call announces itself exactly once, whatever the wrapped
    function returns or raises, as long as that function calls no traced
    agent itself. *)
Lemma announces_trace_agent (E : Env) {Args R : Type} `{IsInstance R}
    (agent_name : string) (func : Args → kwargs → M R)
    (args : Args) (kw : kwargs) :
  announces 0 0 (func args kw) →
  announces 1 1 (trace_agent E agent_name func args kw).
Proof.
  intros Hfunc. unfold trace_agent.
  apply (announces_bind 1 1 0);
    [apply announces_print_started; reflexivity|intros _].
  apply announces_bind0; [quiet|intros _].
  apply announces_bind0; [quiet|intros start_time].
  apply announces_try_except0.
  - apply announces_bind0; [exact Hfunc|intros result].
    apply announces_bind0; [unfold elapsed_since; quiet|intros elapsed].
    apply announces_bind0; [apply announces_print_if_prediction|intros _].
    quiet.
  - intros e. unfold elapsed_since. quiet.
Qed.

Lemma announces_observe (E : Env) (registry : list Tool) (name : string)
    (args : kwargs) (hi : nat) :
  Forall (fun t => ∀ args, announces 0 hi (tool_call t args)) registry →
  announces 0 hi (observe E registry name args).
Proof.
  intros Htools. unfold observe.
  destruct (resolve registry name) as [tool|] eqn:Hres;
    [|eapply announces_weaken; [..|apply announces_ret]; lia].
  assert (∀ args, announces 0 hi (tool_call tool args)) as Htool.
  { eapply (proj1 (Forall_forall _ _) Htools). by eapply resolve_elem_of. }
  destruct (args_valid _ _);
    [|eapply announces_weaken; [..|apply announces_ret]; lia].
  replace hi with (hi + 0 + 0)%nat by lia.
  apply announces_try_except; [|intros e; apply announces_ret].
  apply announces_bind; [apply Htool|intros v; apply announces_ret].
Qed.

Lemma announces_turn (E : Env) (sig : Signature) (registry : list Tool)
    (max_iters : nat) (input : kwargs) (i : nat)
    (trajectory : gmap string value) (hi : nat) :
  Forall (fun t => ∀ args, announces 0 hi (tool_call t args)) registry →
  announces 0 hi (turn E sig registry max_iters input i trajectory).
Proof.
  intros Htools. unfold turn, decide_next.
  apply (announces_bind 0 0 hi); [quiet|].
  intros [thought name args|thought outputs].
  - replace hi with (hi + 0)%nat by lia.
    apply announces_bind; [by apply announces_observe|].
    intros observation. apply announces_ret.
  - eapply announces_weaken; [..|apply announces_ret]; lia.
Qed.

(** The turns a state still has before the budget ends the run. *)
Lemma announces_drive (E : Env) (sig : Signature) (registry : list Tool)
    (max_iters : nat) (input : kwargs) (fuel : nat) (s : LoopState) :
  Forall (fun t => ∀ args, announces 0 1 (tool_call t args)) registry →
  (∀ i trajectory last,
     s = AwaitingDecision i trajectory last → (i < max_iters)%nat) →
  announces 0
    (match s with
     | AwaitingDecision i _ _ => max_iters - i
     | Terminated _ => 0
     end)
    (drive E sig registry max_iters input fuel s).
Proof.
  intros Htools. revert s. induction fuel as [|fuel IH]; intros s Hs.
  - destruct s; cbn [drive];
      (eapply announces_weaken; [..|apply announces_ret]; lia).
  - destruct s as [i trajectory last|p]; cbn [drive];
      [|apply announces_ret].
    specialize (Hs _ _ _ eq_refl).
    intros w. unfold bind.
    destruct (announces_turn E sig registry max_iters input i trajectory 1
                Htools w) as (out & Hout & Hcount).
    destruct (turn E sig registry max_iters input i trajectory w)
      as [[s1|e] w1] eqn:Hturn; cbn [snd] in *;
      [|exists out; split; [done|lia]].
    assert (∀ j t l, s1 = AwaitingDecision j t l
                     → j = S i ∧ (S i < max_iters)%nat) as Hnext.
    { intros j t l ->.
      destruct (turn_cases _ _ _ _ _ _ _ _ _ _ Hturn)
        as [(th & nm & args & obs & Heq)|(th & outs & Heq)]; [|done].
      unfold enter in Heq. case_decide; [|done]. by injection Heq as -> _ _. }
    assert (∀ j t l, s1 = AwaitingDecision j t l → (j < max_iters)%nat)
      as Hs1 by (intros j t l Heq; destruct (Hnext j t l Heq); lia).
    destruct (IH s1 Hs1 w1) as (out' & Hout' & Hcount').
    exists (out ++ out')%list. rewrite Hout', Hout, app_assoc.
    split; [done|]. rewrite started_count_app.
    destruct s1 as [j t l|p1]; [destruct (Hnext j t l eq_refl) as [-> ?]|];
      lia.
Qed.

Lemma announces_react_call_quiet (E : Env) (program : ReAct) (input : kwargs) :
  Forall (fun t => ∀ args, announces 0 0 (tool_call t args))
    (rp_tools program) →
  announces 0 0 (react_call E program input).
Proof.
  intros Htools. unfold react_call, run.
  generalize (enter E (rp_signature program) (rp_max_iters program) 0 ∅ None).
  induction (rp_max_iters program) as [|fuel IH] at 2; intros s.
  - destruct s; cbn [drive]; apply announces_ret.
  - destruct s as [i trajectory last|p]; cbn [drive]; [|apply announces_ret].
    apply announces_bind0; [by apply announces_turn|apply IH].
Qed.

Lemma quiet_math_tools :
  Forall (fun t => ∀ args, announces 0 0 (tool_call t args)) math_tools.
Proof.
  repeat constructor; intros args; cbn; unfold call_num2;
    repeat case_match; quiet.
Qed.

Lemma quiet_text_tools :
  Forall (fun t => ∀ args, announces 0 0 (tool_call t args)) text_tools.
Proof.
  repeat constructor; intros args; cbn; unfold call_str1;
    repeat case_match; quiet.
Qed.

Lemma quiet_time_tools (E : Env) :
  Forall (fun t => ∀ args, announces 0 0 (tool_call t args)) (time_tools E).
Proof.
  repeat constructor; intros args; cbn;
    unfold call_0, get_usa_time, get_china_time; repeat case_match; quiet.
Qed.

Lemma quiet_requests_get (E : Env) (url : string) :
  announces 0 0 (requests_get E url).
Proof. unfold requests_get. quiet. Qed.

#[local] Hint Resolve quiet_requests_get : quiet.

Lemma quiet_get_weather_by_city (E : Env) (city_name : string) :
  announces 0 0 (get_weather_by_city E city_name).
Proof. unfold get_weather_by_city. quiet. Qed.

Lemma quiet_fetch_temps (E : Env) (cities : list string)
    (temps : gmap string value) :
  announces 0 0 (fetch_temps E cities temps).
Proof.
  revert temps. induction cities as [|city rest IH]; intros temps;
    cbn [fetch_temps]; [quiet|].
  repeat first
    [ apply IH
    | progress auto with quiet
    | apply announces_bind0; [|intros ?]
    | match goal with
      | |- announces 0 0 (if ?b then _ else _) => destruct b
      end ].
Qed.

Lemma quiet_compare_city_temperatures (E : Env) (city1 city2 : string) :
  announces 0 0 (compare_city_temperatures E city1 city2).
Proof.
  unfold compare_city_temperatures.
  apply announces_try_except0; [|quiet].
  apply announces_bind0; [apply quiet_fetch_temps|].
  intros [s|temps]; quiet.
Qed.

Lemma quiet_weather_tools (E : Env) :
  Forall (fun t => ∀ args, announces 0 0 (tool_call t args))
    (weather_tools E).
Proof.
  repeat constructor; intros args.
  - unfold get_weather_by_city_tool, call_str1. cbn [tool_call].
    repeat case_match; try apply announces_raise.
    apply announces_bind0; [apply quiet_get_weather_by_city|quiet].
  - cbn [tool_call compare_city_temperatures_tool].
    repeat case_match; try apply announces_raise.
    apply announces_bind0; [apply quiet_compare_city_temperatures|quiet].
Qed.

(** Calling an adapter is calling one traced agent. *)
Lemma announces_adapter (E : Env) (agent_name : string) (program : ReAct)
    (param field q : string) :
  Forall (fun t => ∀ args, announces 0 0 (tool_call t args))
    (rp_tools program) →
  announces 1 1
    (prediction <- trace_agent E agent_name (forward_body E program param)
                     tt [(param, VStr q)] ;;
     lift (getattr prediction field)).
Proof.
  intros Htools. apply (announces_bind 1 1 0); [|intros p; apply announces_lift].
  apply announces_trace_agent. unfold forward_body.
  rewrite String.eqb_refl. by apply announces_react_call_quiet.
Qed.

Lemma announces_adapters (E : Env) :
  Forall (fun adapter => ∀ q : string, announces 1 1 (adapter q))
    [math_calculator E; text_processor E; time_checker E; weather_checker E].
Proof.
  repeat constructor; intros q; apply announces_adapter.
  - exact quiet_math_tools.
  - exact quiet_text_tools.
  - exact (quiet_time_tools E).
  - exact (quiet_weather_tools E).
Qed.

Lemma announces_adapter_tool (name desc param : string)
    (f : string → M value) (args : kwargs) :
  (∀ q, announces 1 1 (f q)) →
  announces 0 1 (tool_call (adapter_tool name desc param f) args).
Proof.
  intros Hf. cbn [tool_call adapter_tool]. unfold call_str1.
  repeat case_match;
    try (eapply announces_weaken; [..|apply announces_raise]; lia).
  eapply announces_weaken; [..|apply Hf]; lia.
Qed.

Lemma announces_main_tools (E : Env) :
  Forall (fun t => ∀ args, announces 0 1 (tool_call t args))
    (rp_tools (MainAgent E)).
Proof.
  repeat constructor; intros args; apply announces_adapter_tool; intros q;
    apply announces_adapter.
  - exact quiet_math_tools.
  - exact quiet_text_tools.
  - exact (quiet_time_tools E).
  - exact (quiet_weather_tools E).
Qed.

Lemma announces_main_agent (E : Env) (user_query : string) :
  announces 0 5 (MainAgent_forward E user_query).
Proof.
  unfold MainAgent_forward, react_call, run.
  change (enter E (rp_signature (MainAgent E)) (rp_max_iters (MainAgent E))
            0 ∅ None)
    with (AwaitingDecision 0 ∅ None).
  apply (announces_drive E _ _ 5 _ _ (AwaitingDecision 0 ∅ None)).
  - apply announces_main_tools.
  - intros i trajectory last [= <- _ _]. lia.
Qed.

(** C2. The coordinator is one loop: [MainAgent_forward] is a single
    run of the engine over [MainAgentSignature] with a budget of 5.  Its
    registry has four entries and each is one of the adapters.  The run
    has at most 5 turns.  Every call of an adapter is one call of its
    specialist, announced by exactly one STARTED line on the console,
    and a run of the coordinator adds at most 5 such lines, whether it
    returns or raises: a user query leads to at most 5 specialist
    calls. *)
Theorem coordinator_registry_and_budget (E : Env) :
  rp_max_iters (MainAgent E) = 5%nat
  ∧ Forall2 (fun t entry => is_adapter_entry t entry.1.1 entry.1.2 entry.2)
      (rp_tools (MainAgent E))
      [("math_calculator", "math_query", math_calculator E);
       ("text_processor", "text_query", text_processor E);
       ("time_checker", "time_query", time_checker E);
       ("weather_checker", "weather_query", weather_checker E)]
  ∧ (∀ user_query,
       MainAgent_forward E user_query
       = run E MainAgentSignature (rp_tools (MainAgent E)) 5
           [("user_query", VStr user_query)])
  ∧ (∀ user_query w,
       match fst (MainAgent_forward E user_query w) with
       | Ok p => ∃ n, (n ≤ 5)%nat ∧ contiguous (pred_trajectory p) n
       | Raise _ => True
       end)
  ∧ Forall (fun adapter => ∀ q : string, announces 1 1 (adapter q))
      [math_calculator E; text_processor E; time_checker E;
       weather_checker E]
  ∧ (∀ user_query, announces 0 5 (MainAgent_forward E user_query)).
Proof.
  split; [reflexivity|]. split; [|split; [reflexivity|split]].
  - repeat constructor.
  - intros user_query w.
    destruct (MainAgent_forward E user_query w) as [[p|e] w'] eqn:Hrun;
      cbn [fst]; [|done].
    by eapply main_agent_turns.
  - split; [apply announces_adapters|apply announces_main_agent].
Qed.

(** ** The scenario of the sum *)

Lemma drive_step (E : Env) (sig : Signature) (registry : list Tool)
    (max_iters : nat) (input : kwargs) (fuel i : nat)
    (trajectory : gmap string value) (last : option string) (w : World) :
  drive E sig registry max_iters input (S fuel)
    (AwaitingDecision i trajectory last) w
  = match turn E sig registry max_iters input i trajectory w with
    | (Ok s', w') => drive E sig registry max_iters input fuel s' w'
    | (Raise e, w') => (Raise e, w')
    end.
Proof. reflexivity. Qed.

Lemma five_plus_three_run (E : Env) (w : World) :
  (∀ ctx k, ctx_input ctx = five_plus_three →
            lm_decide E ctx k = parses_intent ctx k) →
  ∃ p,
    react_call E MathAgent five_plus_three w = (Ok p, ticked (ticked w))
    ∧ pred_outcome p = Finished
    ∧ pred_outputs p = [("math_result", VStr "8")]
    ∧ pred_trajectory p
      = append_turn 0 "The question asks for a sum" "add_numbers"
          [("a", VNum (PyInt 5)); ("b", VNum (PyInt 3))] "8" ∅.
Proof.
  intros Hlm. unfold react_call, run.
  change (enter E (rp_signature MathAgent) (rp_max_iters MathAgent) 0 ∅ None)
    with (AwaitingDecision 0 ∅ None).
  change (rp_max_iters MathAgent) with 3%nat.
  rewrite drive_step, turn_unfold, Hlm by reflexivity.
  change (parses_intent _ (tick w))
    with (Ok (ToolCall "The question asks for a sum" "add_numbers"
                [("a", VNum (PyInt 5)); ("b", VNum (PyInt 3))])).
  cbv iota beta.
  change (observe E (rp_tools MathAgent) "add_numbers"
            [("a", VNum (PyInt 5)); ("b", VNum (PyInt 3))] (ticked w))
    with (Ok "8", ticked w).
  cbv iota beta.
  change (enter E (rp_signature MathAgent) 3 1 ?t ?l)
    with (AwaitingDecision 1 t l).
  rewrite drive_step, turn_unfold, Hlm by reflexivity.
  unfold parses_intent. cbn [ctx_trajectory].
  rewrite lookup_observation_append.
  eexists. split; [reflexivity|]. by repeat split.
Qed.

(** C6, as the program has it.  On "what is 5 plus 3", with a capability
    that asks for [add_numbers(a=5, b=3)] and finishes with the sum it
    observed, [MathAgent]'s loop finishes with [math_result = "8"] after
    exactly one tool-call turn, and [math_calculator] returns that
    string.  [add_numbers(5, 3)] is 8.  [multiply_numbers] returns the
    exact product of two ints; of two floats it returns the binary64
    product, rounded to nearest. *)
Theorem sum_scenario_and_arithmetic (E : Env) (w : World) :
  (∀ ctx k, ctx_input ctx = five_plus_three →
            lm_decide E ctx k = parses_intent ctx k) →
  (∃ p w',
     react_call E MathAgent five_plus_three w = (Ok p, w')
     ∧ pred_outcome p = Finished
     ∧ pred_outputs p = [("math_result", VStr "8")]
     ∧ contiguous (pred_trajectory p) 1
     ∧ pred_trajectory p !! turn_key "tool_name" 0
       = Some (VStr "add_numbers")
     ∧ pred_trajectory p !! turn_key "observation" 0 = Some (VStr "8"))
  ∧ fst (math_calculator E "what is 5 plus 3" w) = Ok (VStr "8")
  ∧ add_numbers (PyInt 5) (PyInt 3) = Ok (PyInt 8)
  ∧ (∀ a b : Z, multiply_numbers (PyInt a) (PyInt b) = Ok (PyInt (a * b)))
  ∧ (∀ x y : spec_float,
       multiply_numbers (PyFloat x) (PyFloat y)
       = Ok (PyFloat (SFmul PyNum.prec PyNum.emax x y))).
Proof.
  intros Hlm. split; [|split; [|by repeat split]].
  - destruct (five_plus_three_run E w Hlm)
      as (p & Hrun & Hflag & Hout & Htraj).
    exists p, (ticked (ticked w)). repeat split; try done.
    + rewrite Htraj. apply contiguous_append, contiguous_empty.
    + by rewrite Htraj.
    + rewrite Htraj. apply lookup_observation_append.
  - unfold math_calculator, bind, MathAgent_forward.
    destruct (trace_agent_result E "MathAgent"
                (forward_body E MathAgent "math_query") tt five_plus_three w)
      as [out Htrace].
    change [("math_query", VStr "what is 5 plus 3")] with five_plus_three.
    rewrite Htrace.
    change (forward_body E MathAgent "math_query" tt five_plus_three)
      with (react_call E MathAgent five_plus_three).
    destruct (five_plus_three_run E
                (traced_entry E "MathAgent" five_plus_three w) Hlm)
      as (p & -> & _ & Hout & _).
    cbn [fst lift]. by apply getattr_single.
Qed.

Lemma sum_scenario_witness :
  let E := example_env parses_intent in
  (∃ p w',
     react_call E MathAgent five_plus_three initial_world = (Ok p, w')
     ∧ pred_outcome p = Finished
     ∧ pred_outputs p = [("math_result", VStr "8")]
     ∧ contiguous (pred_trajectory p) 1
     ∧ pred_trajectory p !! turn_key "tool_name" 0
       = Some (VStr "add_numbers")
     ∧ pred_trajectory p !! turn_key "observation" 0 = Some (VStr "8"))
  ∧ fst (math_calculator E "what is 5 plus 3" initial_world) = Ok (VStr "8").
Proof.
  intros E.
  refine (let H := sum_scenario_and_arithmetic E initial_world _ in
          conj (proj1 H) (proj1 (proj2 H))).
  intros ctx k _. reflexivity.
Defined.

(** C6, as stated, fails for [multiply_numbers] on floats: the square
    of 9007199254740991.0 is returned as 81129638414606663681390495662080.0,
    one less than the product of the arguments. *)
Lemma multiply_numbers_rounds :
  ∃ r,
    multiply_numbers (PyFloat float_2p53m1) (PyFloat float_2p53m1)
      = Ok (PyFloat r)
    ∧ PyNum.integral_value float_2p53m1 = Some 9007199254740991
    ∧ PyNum.integral_value r = Some 81129638414606663681390495662080
    ∧ 81129638414606663681390495662080
      ≠ 9007199254740991 * 9007199254740991.
Proof.
  eexists. split; [vm_compute; reflexivity|].
  split; [reflexivity|]. split; [reflexivity|]. lia.
Qed.


(** * Further properties of the module *)

(** ** [reverse_text] *)

Lemma string_app_assoc (a b c : string) : (a ++ b) ++ c = a ++ (b ++ c).
Proof.
  induction a as [|x a IH]; [reflexivity|].
  change (String x (((a ++ b) ++ c)) = String x (a ++ (b ++ c))).
  by rewrite IH.
Qed.

Lemma rev_app_acc (s acc : string) :
  String.rev_app s acc = String.rev_app s "" ++ acc.
Proof.
  revert acc. induction s as [|c s IH]; intros acc; [reflexivity|].
  cbn [String.rev_app]. rewrite (IH (String c acc)), (IH (String c "")).
  by rewrite string_app_assoc.
Qed.

Lemma rev_app_app (a b acc : string) :
  String.rev_app (a ++ b) acc = String.rev_app b (String.rev_app a acc).
Proof.
  revert acc. induction a as [|c a IH]; intros acc; [reflexivity|].
  change (String.rev_app (a ++ b) (String c acc)
          = String.rev_app b (String.rev_app a (String c acc))).
  apply IH.
Qed.

(** X2. Reversing a concatenation gives the reversed parts in the
    opposite order. *)
Theorem reverse_text_app (a b : string) :
  reverse_text (a ++ b) = reverse_text b ++ reverse_text a.
Proof.
  unfold reverse_text, String.rev.
  by rewrite rev_app_app, rev_app_acc.
Qed.

Lemma get_rev_app (s acc : string) (i : nat) :
  String.get i (String.rev_app s acc)
  = if (i <? String.length s)%nat
    then String.get (String.length s - 1 - i) s
    else String.get (i - String.length s) acc.
Proof.
  revert acc i. induction s as [|c s IH]; intros acc i.
  - cbn. by rewrite Nat.sub_0_r.
  - cbn [String.rev_app String.length]. rewrite IH.
    destruct (Nat.ltb_spec i (String.length s)) as [Hlt|Hge].
    + destruct (Nat.ltb_spec i (S (String.length s))); [|lia].
      replace (S (String.length s) - 1 - i)%nat
        with (S (String.length s - 1 - i)) by lia.
      reflexivity.
    + destruct (Nat.ltb_spec i (S (String.length s))) as [Hlt'|Hge'].
      * replace (i - String.length s)%nat with 0%nat by lia.
        replace (S (String.length s) - 1 - i)%nat with 0%nat by lia.
        reflexivity.
      * replace (i - String.length s)%nat
          with (S (i - S (String.length s))) by lia.
        reflexivity.
Qed.

(** X1. The character at position [i] of the reversed text is the
    character at position [len - 1 - i] of the text. *)
Theorem reverse_text_get (s : string) (i : nat) :
  (i < String.length s)%nat →
  String.get i (reverse_text s) = String.get (String.length s - 1 - i) s.
Proof.
  intros Hi. unfold reverse_text, String.rev. rewrite get_rev_app.
  by destruct (Nat.ltb_spec i (String.length s)); [|lia].
Qed.

Lemma reverse_text_get_witness :
  String.get 1 (reverse_text "time") = String.get (4 - 1 - 1) "time".
Proof. apply (reverse_text_get "time" 1). cbn. lia. Defined.

(** ** [count_words] *)

Lemma split_go_app_space (cur : option string) (a b : string) (c : ascii) :
  py_isspace c = true →
  split_go cur (a ++ String c b) = (split_go cur a ++ split_go None b)%list.
Proof.
  intros Hc. revert cur. induction a as [|x a IH]; intros cur.
  - change (split_go cur (String c b)
            = (split_go cur "" ++ split_go None b)%list).
    cbn [split_go]. by rewrite Hc.
  - change (split_go cur (String x (a ++ String c b))
            = (split_go cur (String x a) ++ split_go None b)%list).
    cbn [split_go]. destruct (py_isspace x).
    + by rewrite IH, app_assoc.
    + apply IH.
Qed.

(** X4. The words of two texts joined by a white-space character are
    the words of the first followed by the words of the second; the
    counts add up. *)
Theorem count_words_app_space (a b : string) (c : ascii) :
  py_isspace c = true →
  split (a ++ String c b) = (split a ++ split b)%list
  ∧ count_words (a ++ String c b) = (count_words a + count_words b)%nat.
Proof.
  intros Hc. unfold count_words, split.
  rewrite split_go_app_space by done. by rewrite length_app.
Qed.

Lemma count_words_app_space_witness :
  split ("what is" ++ String " " "5 plus 3")
  = (split "what is" ++ split "5 plus 3")%list
  ∧ count_words ("what is" ++ String " " "5 plus 3")
    = (count_words "what is" + count_words "5 plus 3")%nat.
Proof. apply (count_words_app_space "what is" "5 plus 3" " "). reflexivity. Defined.

Lemma split_go_some_length (cur s : string) :
  (1 ≤ length (split_go (Some cur) s))%nat.
Proof.
  revert cur. induction s as [|c s IH]; intros cur; cbn [split_go].
  - cbn. lia.
  - destruct (py_isspace c); [cbn; lia|apply IH].
Qed.

(** X3. A text has no word exactly when all its characters are white
    space; the empty text is such a text. *)
Theorem count_words_zero (text : string) :
  count_words text = 0%nat ↔ all_chars py_isspace text = true.
Proof.
  unfold count_words, split. induction text as [|c s IH]; [done|].
  cbn [split_go all_chars]. destruct (py_isspace c); cbn [andb app option_list fmap option_fmap option_map].
  - exact IH.
  - pose proof (split_go_some_length (String c (default "" None)) s).
    split; [lia|done].
Qed.

Lemma split_go_bound (cur : option string) (s : string) :
  (2 * length (split_go cur s)
   ≤ String.length s + match cur with Some _ => 2 | None => 1 end)%nat.
Proof.
  revert cur. induction s as [|c s IH]; intros cur; cbn [split_go String.length].
  - destruct cur; cbn; lia.
  - destruct (py_isspace c).
    + rewrite length_app. specialize (IH None). destruct cur; cbn in *; lia.
    + specialize (IH (Some (String c (default "" cur)))).
      destruct cur; cbn in *; lia.
Qed.

(** X6. Words need a character each and a separator between them: a
    text of [n] characters has at most [(n + 1) / 2] words. *)
Theorem count_words_bound (text : string) :
  (2 * count_words text ≤ String.length text + 1)%nat.
Proof. apply (split_go_bound None). Qed.

Lemma all_chars_rev_app (P : ascii → bool) (s acc : string) :
  all_chars P (String.rev_app s acc) = all_chars P s && all_chars P acc.
Proof.
  revert acc. induction s as [|c s IH]; intros acc; [reflexivity|].
  cbn [String.rev_app all_chars]. rewrite IH. cbn [all_chars].
  by destruct (P c), (all_chars P s), (all_chars P acc).
Qed.

Lemma rev_app_not_empty (s acc : string) :
  acc ≠ "" → String.rev_app s acc ≠ "".
Proof.
  revert acc. induction s as [|c s IH]; intros acc Hacc; [done|].
  cbn [String.rev_app]. by apply IH.
Qed.

Lemma is_word_rev (cur : string) :
  cur ≠ "" → all_chars (fun c => negb (py_isspace c)) cur = true →
  is_word (String.rev cur).
Proof.
  intros Hne Hall. unfold String.rev. split.
  - destruct cur as [|c cur]; [done|]. cbn [String.rev_app].
    by apply rev_app_not_empty.
  - rewrite all_chars_rev_app, Hall. reflexivity.
Qed.

Lemma split_go_words (cur : option string) (s : string) :
  (∀ run, cur = Some run →
          run ≠ "" ∧ all_chars (fun c => negb (py_isspace c)) run = true) →
  Forall is_word (split_go cur s).
Proof.
  revert cur. induction s as [|c s IH]; intros cur Hcur; cbn [split_go].
  - destruct cur as [run|]; cbn; [|constructor].
    destruct (Hcur run eq_refl). constructor; [by apply is_word_rev|constructor].
  - destruct (py_isspace c) eqn:Hc.
    + apply Forall_app. split; [|by apply IH].
      destruct cur as [run|]; cbn; [|constructor].
      destruct (Hcur run eq_refl).
      constructor; [by apply is_word_rev|constructor].
    + apply IH. intros run [= <-]. split; [done|].
      cbn [all_chars]. rewrite Hc. cbn.
      destruct cur as [run|]; cbn; [|done]. by destruct (Hcur run eq_refl).
Qed.

(** X7. [split] never yields an empty word, and no word it yields
    contains a white-space character. *)
Theorem split_words (text : string) : Forall is_word (split text).
Proof. apply split_go_words. intros run [=]. Qed.

Lemma split_go_starts (cur : option string) (s : string) :
  length (split_go cur s)
  = (word_starts (bool_decide (cur = None)) s
     + indicator (bool_decide (cur ≠ None)))%nat.
Proof.
  revert cur. induction s as [|c s IH]; intros cur; cbn [split_go word_starts].
  - by destruct cur.
  - destruct (py_isspace c) eqn:Hc.
    + rewrite length_app, (IH None). rewrite andb_false_r.
      destruct cur; cbn; lia.
    + rewrite IH. destruct cur; cbn; lia.
Qed.

Lemma word_starts_app (b : bool) (x y : string) :
  word_starts b (x ++ y)
  = (word_starts b x + word_starts (last_space b x) y)%nat.
Proof.
  revert b. induction x as [|c x IH]; intros b; [reflexivity|].
  change (word_starts b (String c (x ++ y))
          = (word_starts b (String c x)
             + word_starts (last_space b (String c x)) y)%nat).
  cbn [word_starts last_space]. rewrite IH. lia.
Qed.

Lemma last_space_app (b : bool) (x y : string) :
  last_space b (x ++ y) = last_space (last_space b x) y.
Proof.
  revert b. induction x as [|c x IH]; intros b; [reflexivity|].
  change (last_space b (String c (x ++ y))
          = last_space (last_space b (String c x)) y).
  cbn [last_space]. apply IH.
Qed.

Lemma rev_cons (c : ascii) (s : string) :
  String.rev (String c s) = String.rev s ++ String c "".
Proof. unfold String.rev. cbn [String.rev_app]. apply rev_app_acc. Qed.

Lemma last_space_rev (s : string) :
  last_space true (String.rev s) = first_space s.
Proof.
  destruct s as [|c s]; [reflexivity|].
  by rewrite rev_cons, last_space_app.
Qed.

(** As many words start in the reversed text as end in the text. *)
Lemma word_starts_rev (s : string) :
  word_starts true (String.rev s) = word_ends s.
Proof.
  induction s as [|c s IH]; [reflexivity|].
  rewrite rev_cons, word_starts_app, IH, last_space_rev.
  cbn [word_starts word_ends]. rewrite andb_comm. lia.
Qed.

(** Starts and ends pair up. *)
Lemma word_starts_ends (b : bool) (s : string) :
  (word_starts b s + indicator (negb b)
   = indicator (negb b && first_space s) + word_ends s)%nat.
Proof.
  revert b. induction s as [|c s IH]; intros b.
  - cbn. rewrite andb_true_r. lia.
  - cbn [word_starts word_ends first_space]. specialize (IH (py_isspace c)).
    destruct b, (py_isspace c); cbn in *; lia.
Qed.

(** X5. The two text tools compose: the reversed text has as many
    words as the text. *)
Theorem count_words_reverse_text (text : string) :
  count_words (reverse_text text) = count_words text.
Proof.
  unfold count_words, split, reverse_text.
  rewrite !split_go_starts. cbn [bool_decide decide_rel indicator].
  rewrite !Nat.add_0_r.
  change (bool_decide (None = None)) with true.
  rewrite word_starts_rev.
  pose proof (word_starts_ends true text) as H. cbn in H. lia.
Qed.

Example count_words_reversed :
  count_words (reverse_text "  what is 5 ") = 3%nat.
Proof. reflexivity. Qed.

(** ** [add_numbers] and [multiply_numbers] *)

Lemma SFadd_comm (x y : spec_float) :
  SFadd PyNum.prec PyNum.emax x y = SFadd PyNum.prec PyNum.emax y x.
Proof.
  destruct x as [sx|sx| |sx mx ex], y as [sy|sy| |sy my ey];
    try reflexivity; try (by destruct sx, sy).
  cbn [SFadd]. by rewrite Z.min_comm, Z.add_comm.
Qed.

Lemma SFmul_comm (x y : spec_float) :
  SFmul PyNum.prec PyNum.emax x y = SFmul PyNum.prec PyNum.emax y x.
Proof.
  destruct x as [sx|sx| |sx mx ex], y as [sy|sy| |sy my ey];
    try reflexivity; cbn [SFmul]; rewrite (xorb_comm sx sy); try reflexivity.
  by rewrite Pos.mul_comm, Z.add_comm.
Qed.

Lemma arith_comm (on_int : Z → Z → Z)
    (on_float : spec_float → spec_float → spec_float) (a b : num) :
  (∀ x y, on_int x y = on_int y x) →
  (∀ x y, on_float x y = on_float y x) →
  PyNum.arith on_int on_float a b = PyNum.arith on_int on_float b a.
Proof.
  intros Hint Hfloat. destruct a as [x|x], b as [y|y]; cbn [PyNum.arith].
  - by rewrite Hint.
  - destruct (PyNum.float_of_int x); [|done]. by rewrite Hfloat.
  - destruct (PyNum.float_of_int y); [|done]. by rewrite Hfloat.
  - by rewrite Hfloat.
Qed.

(** X8. Both math tools give the same answer, or raise the same error,
    when their arguments are swapped, whether these are ints, floats or
    one of each. *)
Theorem math_tools_commutative (a b : num) :
  add_numbers a b = add_numbers b a
  ∧ multiply_numbers a b = multiply_numbers b a.
Proof.
  unfold add_numbers, multiply_numbers, PyNum.add, PyNum.mul. split; f_equal.
  - apply arith_comm; [apply Z.add_comm|apply SFadd_comm].
  - apply arith_comm; [apply Z.mul_comm|apply SFmul_comm].
Qed.

(** ** [print_react_trajectory] *)

Lemma print_turn_lines (E : Env) (trajectory : gmap string value) (i : nat)
    (w : World) :
  ∃ l1 l2 l3,
    print_turn E trajectory i w
    = (Ok tt, {| stdout := stdout w ++ [l1; l2; l3]; tick := tick w |}).
Proof.
  unfold print_turn, bind, print. cbn [stdout tick].
  eexists _, _, _. rewrite <- !app_assoc. reflexivity.
Qed.

Lemma for_each_print_turn (E : Env) (trajectory : gmap string value)
    (l : list nat) (w : World) :
  ∃ lines,
    for_each l (print_turn E trajectory) w
    = (Ok tt, {| stdout := stdout w ++ lines; tick := tick w |})
    ∧ length lines = (3 * length l)%nat.
Proof.
  revert w. induction l as [|i l IH]; intros w.
  - exists []. rewrite app_nil_r. by destruct w.
  - cbn [for_each]. unfold bind.
    destruct (print_turn_lines E trajectory i w) as (l1 & l2 & l3 & ->).
    destruct (IH {| stdout := stdout w ++ [l1; l2; l3]; tick := tick w |})
      as (lines & -> & Hlen).
    exists ([l1; l2; l3] ++ lines)%list. cbn [stdout tick]. split.
    + by rewrite <- app_assoc.
    + cbn [length app]. rewrite Hlen. cbn [length]. lia.
Qed.

(** X9. The trace renderer prints three lines for each of the turns
    [0 .. n-1], where [n] is the first index whose [thought_n] key is
    missing from the trajectory: turns stored after a gap are not shown,
    and an empty trajectory prints nothing.  It keeps what was printed
    before, consults no collaborator and never raises. *)
Theorem print_react_trajectory_lines (E : Env) (p : Prediction) (w : World) :
  ∃ n lines,
    print_react_trajectory E p w
    = (Ok tt, {| stdout := stdout w ++ lines; tick := tick w |})
    ∧ length lines = (3 * n)%nat
    ∧ (∀ j, (j < n)%nat →
            is_Some (pred_trajectory p !! turn_key "thought" j))
    ∧ pred_trajectory p !! turn_key "thought" n = None.
Proof.
  unfold print_react_trajectory. case_decide as Hempty.
  - exists 0%nat, []. rewrite app_nil_r, Hempty.
    split; [by destruct w|]. split; [reflexivity|].
    split; [intros; lia|apply lookup_empty].
  - destruct (count_thoughts_enough (pred_trajectory p)) as [Hin Hout].
    cbn in Hin, Hout.
    set (n := count_thoughts (size (pred_trajectory p)) (pred_trajectory p) 0)
      in *.
    destruct (for_each_print_turn E (pred_trajectory p) (seq 0 n) w)
      as (lines & Hrun & Hlen).
    exists n, lines. rewrite length_seq in Hlen. by repeat split.
Qed.

(** ** What [trace_agent] prints *)

(** X10. When the wrapped function returns, a traced call returns the
    same value and leaves on the console, in this order: what was there
    before, the STARTED line, the input line, exactly what the function
    printed, the rendering of the result, the line with the elapsed time
    and the FINISHED line.  The rendering is what the [isinstance] block
    prints after the function, nothing unless the result is a
    prediction.  The clock is read once before and once after the
    function. *)
Theorem trace_agent_brackets_output (E : Env) {Args R : Type}
    `{IsInstance R} (agent_name : string) (func : Args → kwargs → M R)
    (args : Args) (kw : kwargs) (w w1 : World) (r : R)
    (inner : list string) :
  func args kw (traced_entry E agent_name kw w) = (Ok r, w1) →
  stdout w1 = (stdout (traced_entry E agent_name kw w) ++ inner)%list →
  ∃ rendering,
    trace_agent E agent_name func args kw w
    = (Ok r,
       {| stdout :=
            stdout w
              ++ [started_line agent_name; input_line E kw]
              ++ inner ++ rendering
              ++ [completed_line E (clock E (tick w)) (clock E (tick w1));
                  closing_line agent_name (Ok r)];
          tick := S (tick w1) |})
    ∧ print_if_prediction E r (ticked w1)
      = (Ok tt, {| stdout := stdout w1 ++ rendering; tick := S (tick w1) |})
    ∧ (as_prediction r = None → rendering = []).
Proof.
  intros Hfunc Hinner.
  assert (∃ rendering,
            print_if_prediction E r (ticked w1)
            = (Ok tt, {| stdout := stdout w1 ++ rendering;
                         tick := S (tick w1) |})
            ∧ (as_prediction r = None → rendering = []))
    as (rendering & Hrender & Hnone).
  { unfold print_if_prediction. destruct (as_prediction r) as [p|].
    - assert (prints_only
                (print_react_trajectory E p ;;; print_final_answer E p))
        as Hp by auto using prints_only_trajectory, prints_only_final_answer
                   with prints.
      destruct (Hp (ticked w1)) as [o ->]. exists o. by split.
    - exists []. rewrite app_nil_r. by split. }
  exists rendering. split; [|by split].
  unfold traced_entry in Hfunc, Hinner. cbn [stdout] in Hinner.
  unfold trace_agent, bind, try_except, print, consult, ticked.
  cbn [stdout tick]. rewrite <- app_assoc. cbn [app].
  rewrite Hfunc.
  unfold elapsed_since, bind, consult, ret, ticked in *.
  cbn [stdout tick] in *.
  rewrite Hrender. cbn [stdout tick].
  unfold started_line, input_line, completed_line, closing_line.
  rewrite Hinner. f_equal. f_equal. rewrite <- !app_assoc. reflexivity.
Qed.

Lemma trace_agent_brackets_witness :
  let E := example_env keeps_adding in
  let func := fun (_ : unit) (_ : kwargs) =>
                print "counting" ;;; ret (VStr "3") in
  let kw := [("text_query", VStr "count")] in
  ∃ rendering,
    trace_agent E "TextAgent" func tt kw initial_world
    = (Ok (VStr "3"),
       {| stdout :=
            stdout initial_world
              ++ [started_line "TextAgent"; input_line E kw]
              ++ ["counting"] ++ rendering
              ++ [completed_line E (clock E (tick initial_world))
                    (clock E (tick (traced_entry E "TextAgent" kw
                                      initial_world)));
                  closing_line "TextAgent" (Ok (VStr "3"))];
          tick := S (tick (traced_entry E "TextAgent" kw initial_world)) |})
    ∧ print_if_prediction E (VStr "3")
        (ticked {| stdout := stdout (traced_entry E "TextAgent" kw
                                       initial_world) ++ ["counting"];
                   tick := tick (traced_entry E "TextAgent" kw
                                   initial_world) |})
      = (Ok tt,
         {| stdout := (stdout (traced_entry E "TextAgent" kw initial_world)
                         ++ ["counting"]) ++ rendering;
            tick := S (tick (traced_entry E "TextAgent" kw
                               initial_world)) |})
    ∧ (as_prediction (VStr "3") = None → rendering = []).
Proof.
  intros E func kw.
  apply (trace_agent_brackets_output E "TextAgent" func tt kw initial_world
           {| stdout := stdout (traced_entry E "TextAgent" kw initial_world)
                          ++ ["counting"];
              tick := tick (traced_entry E "TextAgent" kw initial_world) |}
           (VStr "3") ["counting"]).
  - reflexivity.
  - reflexivity.
Defined.

(** ** The weather tools, request by request *)

Lemma bind_lift_ok {A B} (a : A) (k : A → M B) (w : World) :
  (x <- lift (Ok a) ;; k x) w = k a w.
Proof. reflexivity. Qed.

Lemma bind_lift_raise {A B} (e : exn) (k : A → M B) (w : World) :
  (x <- lift (Raise e) ;; k x) w = (Raise e, w).
Proof. reflexivity. Qed.

Lemma bind_request_ok (E : Env) {B} (url : string) (r : response)
    (k : response → M B) (w : World) :
  http_get E url (tick w) = Ok r →
  (x <- requests_get E url ;; k x) w = k r (ticked w).
Proof.
  intros Hget. cbv [bind requests_get consult lift]. by rewrite Hget.
Qed.

Lemma consults_ret {A} (a : A) (hi : nat) : consults_between 0 hi (ret a).
Proof. intros w. cbn. split; [done|lia]. Qed.

Lemma consults_bind_lift {A B} (r : result A) (k : A → M B) (hi : nat) :
  (∀ a, consults_between 0 hi (k a)) →
  consults_between 0 hi (x <- lift r ;; k x).
Proof.
  intros Hk w. destruct r as [a|e]; [apply Hk|]. cbn. split; [done|lia].
Qed.

Lemma consults_bind_request (E : Env) {B} (url : string) (k : response → M B)
    (hi : nat) :
  (∀ r, consults_between 0 hi (k r)) →
  consults_between 1 (S hi) (x <- requests_get E url ;; k x).
Proof.
  intros Hk w. cbv [bind requests_get consult lift].
  destruct (http_get E url (tick w)) as [r|e].
  - destruct (Hk r (ticked w)) as [Hout Htick]. cbn [stdout tick ticked] in *.
    split; [done|lia].
  - cbn. split; [done|lia].
Qed.

Lemma consults_weaken {A} (lo hi hi' : nat) (m : M A) :
  (hi ≤ hi')%nat → consults_between lo hi m → consults_between lo hi' m.
Proof. intros Hle Hm w. destruct (Hm w). split; [done|lia]. Qed.

Lemma consults_lower {A} (lo hi : nat) (m : M A) :
  consults_between lo hi m → consults_between 0 hi m.
Proof. intros Hm w. destruct (Hm w). split; [done|lia]. Qed.

Lemma consults_try_except {A} (lo hi : nat) (body : M A) (handler : exn → A) :
  consults_between lo hi body →
  consults_between lo hi (try_except body (fun e => ret (handler e))).
Proof.
  intros Hbody w. unfold try_except. specialize (Hbody w).
  by destruct (body w) as [[a|e] w'].
Qed.

Lemma consults_bind_request0 (E : Env) {B} (url : string)
    (k : response → M B) (hi : nat) :
  (∀ r, consults_between 0 hi (k r)) →
  consults_between 0 (S hi) (x <- requests_get E url ;; k x).
Proof. intros Hk. by eapply consults_lower, consults_bind_request. Qed.

Ltac consults :=
  repeat first
    [ apply consults_ret
    | apply consults_bind_lift; intros ?
    | apply consults_bind_request0; intros ?
    | match goal with
      | |- consults_between _ _ (if ?b then _ else _) => destruct b
      end ].

(** X13. [get_weather_by_city] prints nothing and sends at least one
    and at most two HTTP requests, whatever the service answers and
    whether the answer is a report, a not-found message or an error. *)
Theorem get_weather_by_city_requests (E : Env) (city_name : string) :
  consults_between 1 2 (get_weather_by_city E city_name).
Proof.
  unfold get_weather_by_city. apply consults_try_except.
  apply consults_bind_request. intros geo_response. consults.
Qed.

Lemma fetch_temps_requests (E : Env) (cities : list string)
    (temps : gmap string value) :
  consults_between 0 (2 * length cities) (fetch_temps E cities temps).
Proof.
  revert temps. induction cities as [|city rest IH]; intros temps;
    cbn [fetch_temps].
  - apply consults_ret.
  - replace (2 * length (city :: rest))%nat
      with (S (S (2 * length rest))) by (cbn [length]; lia).
    apply consults_bind_request0. intros geo_response.
    repeat first
      [ apply consults_ret
      | apply consults_bind_lift; intros ?
      | match goal with
        | |- consults_between _ _ (if ?b then _ else _) => destruct b
        end ].
    apply consults_bind_request0. intros weather_response.
    repeat (apply consults_bind_lift; intros ?). apply IH.
Qed.

Lemma fetch_temps_requests_cons (E : Env) (city : string)
    (rest : list string) (temps : gmap string value) :
  consults_between 1 (S (S (2 * length rest)))
    (fetch_temps E (city :: rest) temps).
Proof.
  cbn [fetch_temps]. apply consults_bind_request. intros geo_response.
  repeat first
    [ apply consults_ret
    | apply consults_bind_lift; intros ?
    | match goal with
      | |- consults_between _ _ (if ?b then _ else _) => destruct b
      end ].
  apply consults_bind_request0. intros weather_response.
  repeat (apply consults_bind_lift; intros ?). apply fetch_temps_requests.
Qed.

Lemma consults_bind_quiet {A B} (lo hi : nat) (m : M A) (k : A → M B) :
  consults_between lo hi m → (∀ a, consults_between 0 0 (k a)) →
  consults_between lo hi (x <- m ;; k x).
Proof.
  intros Hm Hk w. unfold bind. destruct (Hm w) as [Hout Htick].
  destruct (m w) as [[a|e] w1]; cbn [snd] in *; [|by split].
  destruct (Hk a w1) as [Hout' Htick']. split; [congruence|lia].
Qed.

(** X16. [compare_city_temperatures] prints nothing and sends at least
    one and at most four HTTP requests, whatever the service answers. *)
Theorem compare_city_temperatures_requests (E : Env) (city1 city2 : string) :
  consults_between 1 4 (compare_city_temperatures E city1 city2).
Proof.
  unfold compare_city_temperatures. apply consults_try_except.
  apply consults_bind_quiet; [apply (fetch_temps_requests_cons E city1 [city2])|].
  intros [s|temps]; consults.
Qed.

Ltac python_steps :=
  repeat first
    [ rewrite bind_lift_ok
    | progress cbn [dict_get subscript_str subscript_0 default from_option id
                    truthy negb]
    | progress cbv beta iota ].

(** X12. When the geocoder answers with an object that has no
    results (the key absent, null or an empty list),
    [get_weather_by_city] returns the not-found message naming the city
    as it was asked, and stops after that one request: no forecast is
    requested. *)
Theorem get_weather_by_city_not_found (E : Env) (city_name : string)
    (w : World) (r : response) (geo : value) :
  http_get E (geocoding_url city_name) (tick w) = Ok r →
  json r = Ok geo →
  no_results geo →
  get_weather_by_city E city_name w
  = (Ok ("City '" ++ city_name ++ "' not found"), ticked w).
Proof.
  intros Hget Hjson (d & -> & Hfalsy).
  unfold get_weather_by_city, try_except.
  rewrite (bind_request_ok E _ r) by done. cbv beta.
  rewrite Hjson, bind_lift_ok. cbn [dict_get].
  rewrite bind_lift_ok, Hfalsy. reflexivity.
Qed.

Lemma get_weather_by_city_not_found_witness :
  get_weather_by_city service_env "atlantis" initial_world
  = (Ok ("City '" ++ "atlantis" ++ "' not found"), ticked initial_world).
Proof.
  apply (get_weather_by_city_not_found service_env "atlantis" initial_world
           {| json := Ok (VDict [("generationtime_ms", VNum (PyInt 1))]) |}
           (VDict [("generationtime_ms", VNum (PyInt 1))])).
  - reflexivity.
  - reflexivity.
  - eexists. split; reflexivity.
Defined.

(** X11. When the geocoder knows the city and the forecast has the
    three readings, [get_weather_by_city] returns the report built from
    the geocoder's name of the place, its country (or "Unknown" when the
    geocoder gives none) and the readings, after exactly two requests;
    the forecast is asked for the coordinates the geocoder gave. *)
Theorem get_weather_by_city_report (E : Env) (city_name : string) (w : World)
    (loc cur : kwargs) (lat lon name temp humidity wind_speed : value) :
  geocoded E city_name (tick w) loc lat lon →
  assoc "name" loc = Some name →
  forecast_at E (forecast_url E lat lon) (S (tick w)) cur →
  assoc "temperature_2m" cur = Some temp →
  assoc "relative_humidity_2m" cur = Some humidity →
  assoc "wind_speed_10m" cur = Some wind_speed →
  get_weather_by_city E city_name w
  = (Ok ("Weather in " ++ str_of E name ++ ", "
           ++ str_of E (default (VStr "Unknown") (assoc "country" loc))
           ++ ": Temperature: " ++ str_of E temp ++ "°C, Humidity: "
           ++ str_of E humidity ++ "%, Wind Speed: " ++ str_of E wind_speed
           ++ " km/h"),
     ticked (ticked w)).
Proof.
  intros (r & g & rest & Hget & Hjson & Hres & Hlat & Hlon) Hname
    (r2 & d & Hget2 & Hjson2 & Hcur) Htemp Hhum Hwind.
  unfold get_weather_by_city, try_except.
  rewrite (bind_request_ok E _ r) by done. python_steps.
  rewrite Hjson. python_steps. rewrite Hres. python_steps.
  rewrite Hlat. python_steps. rewrite Hlon. python_steps.
  rewrite Hname. python_steps.
  unfold forecast_url in Hget2.
  rewrite (bind_request_ok E _ r2) by exact Hget2. python_steps.
  rewrite Hjson2. python_steps. rewrite Hcur. python_steps.
  rewrite Htemp. python_steps. rewrite Hhum. python_steps.
  rewrite Hwind. python_steps. reflexivity.
Qed.

Lemma get_weather_by_city_report_witness :
  let loc := [("latitude", VNum (PyInt 30)); ("longitude", VNum (PyInt 31));
              ("name", VStr "Cairo")] in
  get_weather_by_city service_env "cairo" initial_world
  = (Ok ("Weather in " ++ str_of service_env (VStr "Cairo") ++ ", "
           ++ str_of service_env
                (default (VStr "Unknown") (assoc "country" loc))
           ++ ": Temperature: " ++ str_of service_env (VNum (PyInt 31))
           ++ "°C, Humidity: " ++ str_of service_env (VNum (PyInt 80))
           ++ "%, Wind Speed: " ++ str_of service_env (VNum (PyInt 7))
           ++ " km/h"),
     ticked (ticked initial_world)).
Proof.
  intros loc.
  apply (get_weather_by_city_report service_env "cairo" initial_world loc
           [("temperature_2m", VNum (PyInt 31));
            ("relative_humidity_2m", VNum (PyInt 80));
            ("wind_speed_10m", VNum (PyInt 7))]
           (VNum (PyInt 30)) (VNum (PyInt 31))).
  - eexists _, _, _. repeat split; reflexivity.
  - reflexivity.
  - eexists _, _. repeat split; vm_compute; reflexivity.
  - reflexivity.
  - reflexivity.
  - reflexivity.
Defined.

Lemma fetch_temps_step (E : Env) (city : string) (rest : list string)
    (temps : gmap string value) (w : World) (loc : kwargs)
    (lat lon : value) (t : num) :
  geocoded E city (tick w) loc lat lon →
  temperature_at E lat lon (S (tick w)) t →
  fetch_temps E (city :: rest) temps w
  = fetch_temps E rest (<[city := VNum t]> temps) (ticked (ticked w)).
Proof.
  intros (r & g & more & Hget & Hjson & Hres & Hlat & Hlon)
    (cur & (r2 & d & Hget2 & Hjson2 & Hcur) & Htemp).
  cbn [fetch_temps].
  rewrite (bind_request_ok E _ r) by done. python_steps.
  rewrite Hjson. python_steps. rewrite Hres. python_steps.
  rewrite Hlat. python_steps. rewrite Hlon. python_steps.
  unfold temperature_url in Hget2.
  rewrite (bind_request_ok E _ r2) by exact Hget2. python_steps.
  rewrite Hjson2. python_steps. rewrite Hcur. python_steps.
  rewrite Htemp. python_steps. reflexivity.
Qed.

(** X14. When the geocoder knows both cities and the forecast gives
    the temperatures [t1] and [t2] (ints or floats whose difference can
    be taken), [compare_city_temperatures] returns, after exactly four
    requests, the comparison of the two readings under the names as they
    were asked, with the absolute difference.  The first city is called
    warmer only when its reading is strictly higher, so on equal
    readings the second city is called warmer.  When the same name is
    given twice, the second reading stands for both. *)
Theorem compare_city_temperatures_report (E : Env) (city1 city2 : string)
    (w : World) (loc1 loc2 : kwargs) (lat1 lon1 lat2 lon2 : value)
    (t1 t2 d : num) :
  geocoded E city1 (tick w) loc1 lat1 lon1 →
  temperature_at E lat1 lon1 (S (tick w)) t1 →
  geocoded E city2 (S (S (tick w))) loc2 lat2 lon2 →
  temperature_at E lat2 lon2 (S (S (S (tick w)))) t2 →
  let first := if decide (city1 = city2) then t2 else t1 in
  PyNum.sub first t2 = Some d →
  compare_city_temperatures E city1 city2 w
  = (Ok ("Temperature comparison: " ++ city1 ++ ": " ++ str_of E (VNum first)
           ++ "°C, " ++ city2 ++ ": " ++ str_of E (VNum t2) ++ "°C. "
           ++ (if PyNum.gt first t2 then city1 else city2)
           ++ " is warmer by " ++ str_of E (VNum (PyNum.abs d)) ++ "°C"),
     ticked (ticked (ticked (ticked w)))).
Proof.
  intros Hgeo1 Htemp1 Hgeo2 Htemp2 first Hsub.
  unfold compare_city_temperatures, try_except, bind at 1.
  rewrite (fetch_temps_step E city1 [city2] ∅ w loc1 lat1 lon1 t1) by done.
  rewrite (fetch_temps_step E city2 [] _ (ticked (ticked w)) loc2 lat2 lon2 t2)
    by done.
  cbn [fetch_temps ret]. unfold temps_get.
  rewrite lookup_insert_eq.
  assert ((<[city2:=VNum t2]> (<[city1:=VNum t1]> ∅)
             : gmap string value) !! city1 = Some (VNum first))
    as ->.
  { rewrite lookup_insert. unfold first.
    destruct (decide (city1 = city2)) as [->|Hne].
    - by rewrite decide_True.
    - rewrite decide_False by done. apply lookup_insert_eq. }
  python_steps. unfold py_sub, binop. cbn [as_num]. rewrite Hsub.
  python_steps. reflexivity.
Qed.

Lemma compare_city_temperatures_report_witness :
  compare_city_temperatures service_env "berlin" "cairo" initial_world
  = (Ok ("Temperature comparison: " ++ "berlin" ++ ": "
           ++ str_of service_env
                (VNum (if decide ("berlin" = "cairo")
                       then PyInt 31 else PyInt 12))
           ++ "°C, " ++ "cairo" ++ ": " ++ str_of service_env (VNum (PyInt 31))
           ++ "°C. "
           ++ (if PyNum.gt (if decide ("berlin" = "cairo")
                            then PyInt 31 else PyInt 12) (PyInt 31)
               then "berlin" else "cairo")
           ++ " is warmer by "
           ++ str_of service_env (VNum (PyNum.abs (PyInt (-19)))) ++ "°C"),
     ticked (ticked (ticked (ticked initial_world)))).
Proof.
  apply (compare_city_temperatures_report service_env "berlin" "cairo"
           initial_world
           [("latitude", VNum (PyInt 52)); ("longitude", VNum (PyInt 13));
            ("name", VStr "Berlin"); ("country", VStr "Germany")]
           [("latitude", VNum (PyInt 30)); ("longitude", VNum (PyInt 31));
            ("name", VStr "Cairo")]
           (VNum (PyInt 52)) (VNum (PyInt 13))
           (VNum (PyInt 30)) (VNum (PyInt 31)) (PyInt 12) (PyInt 31)
           (PyInt (-19))).
  - eexists _, _, _. repeat split; reflexivity.
  - eexists. split; [eexists _, _; repeat split; vm_compute; reflexivity|].
    reflexivity.
  - eexists _, _, _. repeat split; reflexivity.
  - eexists. split; [eexists _, _; repeat split; vm_compute; reflexivity|].
    reflexivity.
  - reflexivity.
Defined.

(** X15. When the geocoder has no results for the first city,
    [compare_city_temperatures] returns the not-found message for that
    city after this one request: the second city is never looked up. *)
Theorem compare_city_temperatures_first_not_found (E : Env)
    (city1 city2 : string) (w : World) (r : response) (geo : value) :
  http_get E (geocoding_url city1) (tick w) = Ok r →
  json r = Ok geo →
  no_results geo →
  compare_city_temperatures E city1 city2 w
  = (Ok ("City '" ++ city1 ++ "' not found"), ticked w).
Proof.
  intros Hget Hjson (d & -> & Hfalsy).
  unfold compare_city_temperatures, try_except, bind at 1.
  cbn [fetch_temps].
  rewrite (bind_request_ok E _ r) by done. python_steps.
  rewrite Hjson. python_steps. rewrite Hfalsy. reflexivity.
Qed.

Lemma compare_city_temperatures_first_not_found_witness :
  compare_city_temperatures service_env "atlantis" "berlin" initial_world
  = (Ok ("City '" ++ "atlantis" ++ "' not found"), ticked initial_world).
Proof.
  apply (compare_city_temperatures_first_not_found service_env "atlantis"
           "berlin" initial_world
           {| json := Ok (VDict [("generationtime_ms", VNum (PyInt 1))]) |}
           (VDict [("generationtime_ms", VNum (PyInt 1))])).
  - reflexivity.
  - reflexivity.
  - eexists. split; reflexivity.
Defined.

(** X17. When the first result of the geocoder lacks one of the keys
    [latitude], [longitude] and [name], [get_weather_by_city] returns the
    error message that quotes the first of them that is missing, and no
    forecast is requested. *)
Theorem get_weather_by_city_missing_key (E : Env) (city_name : string)
    (w : World) (r : response) (g loc : kwargs) (rest : list value)
    (key : string) :
  http_get E (geocoding_url city_name) (tick w) = Ok r →
  json r = Ok (VDict g) →
  assoc "results" g = Some (VList (VDict loc :: rest)) →
  first_missing ["latitude"; "longitude"; "name"] loc = Some key →
  get_weather_by_city E city_name w
  = (Ok ("Error fetching weather: '" ++ key ++ "'"), ticked w).
Proof.
  intros Hget Hjson Hres Hmissing.
  unfold get_weather_by_city, try_except.
  rewrite (bind_request_ok E _ r) by done. python_steps.
  rewrite Hjson. python_steps. rewrite Hres. python_steps.
  unfold first_missing in Hmissing. cbn [List.find] in Hmissing.
  destruct (assoc "latitude" loc) as [lat|];
    [|injection Hmissing as <-; reflexivity].
  python_steps.
  destruct (assoc "longitude" loc) as [lon|];
    [|injection Hmissing as <-; reflexivity].
  python_steps.
  destruct (assoc "name" loc) as [name|];
    [discriminate|injection Hmissing as <-; reflexivity].
Qed.

Lemma get_weather_by_city_missing_key_witness :
  let E := make_env (fun _ => 0%nat) keeps_adding in
  let loc := [("latitude", VNum (PyInt 52)); ("name", VStr "Berlin")] in
  let E' :=
    {| clock := clock E; now_strftime := now_strftime E;
       http_get := fun url k =>
         Ok {| json := Ok (VDict [("results", VList [VDict loc])]) |};
       lm_decide := lm_decide E; lm_synthesize := lm_synthesize E;
       repr_other := repr_other E; format_2f := format_2f E |} in
  get_weather_by_city E' "berlin" initial_world
  = (Ok ("Error fetching weather: '" ++ "longitude" ++ "'"),
     ticked initial_world).
Proof.
  intros E loc E'.
  apply (get_weather_by_city_missing_key E' "berlin" initial_world
           {| json := Ok (VDict [("results", VList [VDict loc])]) |}
           [("results", VList [VDict loc])] loc []).
  - reflexivity.
  - reflexivity.
  - reflexivity.
  - reflexivity.
Defined.
